(** * TranslationContext: the in-place translation walk and its state holder

    A shallow embedding of [src/contexts/TranslationContext.tsx].

    - JavaScript strings are sequences of UTF-16 code units ([list N]).
    - The DOM subtree borrowed by the walk is a finite tree of nodes; the
      walk only rewrites [textContent] of text nodes, so the in-place
      mutation is modelled by returning the rewritten tree.
    - The effects of the walk other than the DOM writes (the
      [originalTexts] state, [console.error], the clock and random source
      behind [nodeId]) are threaded through a small state monad.
    - [translateText] and [reverseTranslateText] are imported from
      [@/utils/translations]; they are parameters of the development and
      may throw.
    - A function of the component closes over the state values of the
      render that created it: [translate] and [resetTranslation] take the
      values they saw as arguments, and the setters write to the state
      that the next render will see.
    - Every [await] is followed to completion: a call is one
      uninterrupted computation.  A call made while another one waits is
      run from the state that the waiting call has reached at its
      [await]. *)

From Stdlib Require Import NArith Ascii String.
From stdpp Require Import base list gmap.

Open Scope list_scope.

(** ** JavaScript strings *)

Module JsString.
#[local] Open Scope N_scope.

Abbreviation char16 := N.
Abbreviation jsstring := (list N).

(** A string literal of the source, all of whose characters are ASCII. *)
Definition lit (s : string) : jsstring :=
  List.map N_of_ascii (list_ascii_of_string s).

Definition in_range (lo hi c : char16) : bool := (lo <=? c) && (c <=? hi).

(** [\w] : [A-Za-z0-9_] *)
Definition is_word (c : char16) : bool :=
  in_range 65 90 c || in_range 97 122 c || in_range 48 57 c || (c =? 95).

(** [\s] : WhiteSpace and LineTerminator code units; the same set is
    stripped by [String.prototype.trim]. *)
Definition is_space (c : char16) : bool :=
  in_range 9 13 c || (c =? 32) || (c =? 160) || (c =? 5760)
  || in_range 8192 8202 c || (c =? 8232) || (c =? 8233) || (c =? 8239)
  || (c =? 8287) || (c =? 12288) || (c =? 65279).

(** the class range U+0600 to U+06FF *)
Definition is_arabic (c : char16) : bool := in_range 1536 1791 c.

Fixpoint take_while (p : char16 -> bool) (s : jsstring) : jsstring :=
  match s with
  | [] => []
  | c :: s' => if p c then c :: take_while p s' else []
  end.

Fixpoint drop_while (p : char16 -> bool) (s : jsstring) : jsstring :=
  match s with
  | [] => []
  | c :: s' => if p c then drop_while p s' else s
  end.

(** [s.match(/^\s*/)[0]] : the longest prefix of white space. *)
Definition match_leading_space (s : jsstring) : jsstring :=
  take_while is_space s.

(** [s.match(/\s*$/)[0]] : the match at the leftmost position from which
    only white space follows up to the end of input. *)
Fixpoint match_trailing_space (s : jsstring) : jsstring :=
  match s with
  | [] => []
  | _ :: s' => if forallb is_space s then s else match_trailing_space s'
  end.

(** [s.trimEnd()] : drop the trailing white space. *)
Fixpoint trim_end (s : jsstring) : jsstring :=
  match s with
  | [] => []
  | c :: s' => if forallb is_space s then [] else c :: trim_end s'
  end.

(** [s.trim()] *)
Definition trim (s : jsstring) : jsstring :=
  trim_end (drop_while is_space s).

(** The test of the pattern whose body is a starred negated class of
    [\w], [\s] and the range U+0600 to U+06FF between the two anchors:
    without flags the anchors are the two ends of the input and the
    class is tested per code unit. *)
Definition symbol_class (c : char16) : bool :=
  negb (is_word c || is_space c || is_arabic c).

Definition symbols_only (s : jsstring) : bool := forallb symbol_class s.

(** [a !== b] on strings *)
Definition strict_neq (a b : jsstring) : bool :=
  negb (bool_decide (a = b)).

(** truthiness of a string: it is not empty *)
Definition truthy (s : jsstring) : bool :=
  match s with [] => false | _ => true end.

End JsString.
Import JsString.


(** ** The document *)

(** A node of the borrowed subtree.  [Comment] stands for the node kinds
    that are neither text ([nodeType] 3) nor element. *)
#[local] Unset Elimination Schemes.
Inductive node :=
| Text (textContent : jsstring)
| Element (tagName : jsstring) (childNodes : list node)
| Comment (data : jsstring).
#[local] Set Elimination Schemes.

(** Induction on trees, with the property available for every child. *)
Fixpoint node_induction (P : node -> Prop)
    (HText : forall textContent, P (Text textContent))
    (HElement : forall tagName childNodes,
        Forall P childNodes -> P (Element tagName childNodes))
    (HComment : forall data, P (Comment data))
    (n : node) : P n :=
  match n with
  | Text textContent => HText textContent
  | Element tagName childNodes =>
      HElement tagName childNodes
        ((fix all (l : list node) : Forall P l :=
            match l with
            | [] => @List.Forall_nil node P
            | c :: l' =>
                @List.Forall_cons node P c l'
                  (node_induction P HText HElement HComment c) (all l')
            end) childNodes)
  | Comment data => HComment data
  end.

(** What a [throw] carries. *)
Inductive exn :=
| TypeError (message : jsstring)
| Error (message : jsstring).

(** The outcome of evaluating a JavaScript expression. *)
Inductive completion (A : Type) :=
| Normal (a : A)
| Throw (e : exn).
Arguments Normal {A} a.
Arguments Throw {A} e.

(** The two calls of [console.error]. *)
Inductive log_entry :=
| FailedToTranslateText (currentText : jsstring) (error : exn)
| TranslationFailed (error : exn).

(** Everything the component reads and writes:
    - the React state behind the three [useState] hooks;
    - the [dir] and [lang] attributes of [document.documentElement]
      ([None]: the attribute is absent);
    - [mainContent]: the element that
      [document.querySelector('main') || document.body] evaluates to
      ([None]: both are [null]); no other part of the document is read;
    - the console;
    - [drawn]: how many times the clock and the random source were read. *)
Record world := World {
  st_isTranslated : bool;
  st_isTranslating : bool;
  st_originalTexts : gmap jsstring jsstring;
  html_dir : option jsstring;
  html_lang : option jsstring;
  mainContent : option node;
  console : list log_entry;
  drawn : nat
}.

(** ** State and exceptions *)

Definition M (A : Type) : Type := world -> completion A * world.

Definition ret {A} (a : A) : M A := fun w => (Normal a, w).

Definition throw {A} (e : exn) : M A := fun w => (Throw e, w).

Definition bind {A B} (m : M A) (k : A -> M B) : M B :=
  fun w =>
    match m w with
    | (Normal a, w') => k a w'
    | (Throw e, w') => (Throw e, w')
    end.

Declare Scope js_scope.
Delimit Scope js_scope with js.
Notation "x <- m ;; k" := (bind m (fun x => k))
  (at level 100, m at next level, right associativity) : js_scope.
Notation "m ;; k" := (bind m (fun _ => k))
  (at level 100, right associativity) : js_scope.
Open Scope js_scope.

(** [try { body } catch (error) { handler error }] *)
Definition try_catch {A} (body : M A) (handler : exn -> M A) : M A :=
  fun w =>
    match body w with
    | (Normal a, w') => (Normal a, w')
    | (Throw e, w') => handler e w'
    end.

(** [try { body } finally { cleanup }], for a [cleanup] without [return] *)
Definition try_finally {A} (body : M A) (cleanup : M unit) : M A :=
  fun w =>
    match body w with
    | (r, w') =>
        match cleanup w' with
        | (Normal _, w'') => (r, w'')
        | (Throw e, w'') => (Throw e, w'')
        end
    end.

(** Evaluate an imported function, which may throw. *)
Definition call {A} (r : completion A) : M A := fun w => (r, w).

Definition setIsTranslated (b : bool) : M unit := fun w =>
  (Normal tt,
   World b (st_isTranslating w) (st_originalTexts w) (html_dir w)
     (html_lang w) (mainContent w) (console w) (drawn w)).

Definition setIsTranslating (b : bool) : M unit := fun w =>
  (Normal tt,
   World (st_isTranslated w) b (st_originalTexts w) (html_dir w)
     (html_lang w) (mainContent w) (console w) (drawn w)).

(** [setOriginalTexts(f)] with an updater function [f] *)
Definition setOriginalTexts
    (f : gmap jsstring jsstring -> gmap jsstring jsstring) : M unit := fun w =>
  (Normal tt,
   World (st_isTranslated w) (st_isTranslating w) (f (st_originalTexts w))
     (html_dir w) (html_lang w) (mainContent w) (console w) (drawn w)).

(** [htmlElement.setAttribute('dir', v)] *)
Definition setAttribute_dir (v : jsstring) : M unit := fun w =>
  (Normal tt,
   World (st_isTranslated w) (st_isTranslating w) (st_originalTexts w)
     (Some v) (html_lang w) (mainContent w) (console w) (drawn w)).

(** [htmlElement.setAttribute('lang', v)] *)
Definition setAttribute_lang (v : jsstring) : M unit := fun w =>
  (Normal tt,
   World (st_isTranslated w) (st_isTranslating w) (st_originalTexts w)
     (html_dir w) (Some v) (mainContent w) (console w) (drawn w)).

(** The text payloads written by the walk land in the borrowed subtree. *)
Definition store_mainContent (e : node) : M unit := fun w =>
  (Normal tt,
   World (st_isTranslated w) (st_isTranslating w) (st_originalTexts w)
     (html_dir w) (html_lang w) (Some e) (console w) (drawn w)).

Definition console_error (entry : log_entry) : M unit := fun w =>
  (Normal tt,
   World (st_isTranslated w) (st_isTranslating w) (st_originalTexts w)
     (html_dir w) (html_lang w) (mainContent w) (console w ++ [entry])
     (drawn w)).

(** Read the clock and the random source once more; the result is the
    index of this reading. *)
Definition draw : M nat := fun w =>
  (Normal (drawn w),
   World (st_isTranslated w) (st_isTranslating w) (st_originalTexts w)
     (html_dir w) (html_lang w) (mainContent w) (console w) (S (drawn w))).

(** ** The collaborators *)

(** The module [@/utils/translations]. *)
Class Translations := {
  translateText : jsstring -> completion jsstring;
  reverseTranslateText : jsstring -> completion jsstring
}.

(** [Date.now()] and [Math.random()] as rendered by a template literal,
    at the k-th reading. *)
Class Host := {
  Date_now : nat -> jsstring;
  Math_random : nat -> jsstring
}.

(** The value a [TranslationProvider] hands to its consumers. *)
Record TranslationContextType := {
  isTranslated : bool;
  isTranslating : bool;
  translate : M unit;
  resetTranslation : M unit
}.

(** ** The component *)

Module TranslationProvider.
Section Component.
Context {T : Translations} {host : Host}.

(** Lines 41 to 68: the body of the first loop for a text node whose
    trimmed content is not empty. *)
Definition translateTextNode (isReverse : bool) (textContent : jsstring)
  : M jsstring :=
  let currentText := trim textContent in
  if (length currentText <? 1) || symbols_only currentText
  then ret textContent
  else
    try_catch
      (translatedText <-
         call (if isReverse then reverseTranslateText currentText
               else translateText currentText) ;;
       if strict_neq translatedText currentText then
         k <- draw ;;
         let nodeId :=
           lit "text-" ++ Date_now k ++ lit "-" ++ Math_random k in
         (if negb isReverse
          then setOriginalTexts (fun prev => <[nodeId := currentText]> prev)
          else ret tt) ;;
         let leadingSpace := match_leading_space textContent in
         let trailingSpace := match_trailing_space textContent in
         ret (leadingSpace ++ translatedText ++ trailingSpace)
       else ret textContent)
      (fun error =>
         console_error (FailedToTranslateText currentText error) ;;
         ret textContent).

(** Lines 38 to 69: one iteration of the first loop. *)
Definition processChildNode (isReverse : bool) (n : node) : M node :=
  match n with
  | Text textContent =>
      if truthy (trim textContent)
      then textContent' <- translateTextNode isReverse textContent ;;
           ret (Text textContent')
      else ret n
  | _ => ret n
  end.

(** [for (let i = 0; i < l.length; i++) l[i] = body(l[i])] *)
Fixpoint for_each {A} (body : A -> M A) (l : list A) : M (list A) :=
  match l with
  | [] => ret []
  | a :: l' => a' <- body a ;; l'' <- for_each body l' ;; ret (a' :: l'')
  end.

(** The walk.  The first loop writes the payloads of text nodes only, so
    the element children that the second loop visits are the element
    children the node had on entry: the second loop runs over them
    ([child]) and carries along the list left by the first loop
    ([current]), in which it replaces each visited element by its walked
    state. *)
Fixpoint translateElementsRecursively (element : node) (isReverse : bool)
  {struct element} : M node :=
  match element with
  | Element tagName childNodes =>
      if bool_decide (tagName = lit "SCRIPT")
         || bool_decide (tagName = lit "STYLE")
         || bool_decide (tagName = lit "NOSCRIPT")
      then ret element
      else
        childNodes1 <- for_each (processChildNode isReverse) childNodes ;;
        childNodes2 <-
          (fix children (entry current : list node) : M (list node) :=
             match entry, current with
             | child :: entry', c :: current' =>
                 c' <- match child with
                       | Element _ _ =>
                           translateElementsRecursively child isReverse
                       | _ => ret c
                       end ;;
                 current'' <- children entry' current' ;;
                 ret (c' :: current'')
             | _, _ => ret current
             end) childNodes childNodes1 ;;
        ret (Element tagName childNodes2)
  | _ => ret element
  end.

(** [await translateElementsRecursively(mainContent, isReverse)] for the
    [mainContent] of the document: reading [element.tagName] of [null]
    throws a [TypeError]; otherwise the payloads written by the walk are
    those of the borrowed subtree. *)
Definition walk_mainContent (isReverse : bool) : M unit := fun w =>
  match mainContent w with
  | None =>
      throw (TypeError (lit "Cannot read properties of null")) w
  | Some element =>
      (element' <- translateElementsRecursively element isReverse ;;
       store_mainContent element') w
  end.

(** [translate], as created by a render that saw the state values
    [isTranslated] and [isTranslating]. *)
Definition translate (isTranslated isTranslating : bool) : M unit :=
  if isTranslating then ret tt
  else
    setIsTranslating true ;;
    try_finally
      (try_catch
         (if isTranslated then
            walk_mainContent true ;;
            setAttribute_dir (lit "ltr") ;;
            setAttribute_lang (lit "en") ;;
            setIsTranslated false ;;
            setOriginalTexts (fun _ => ∅)
          else
            walk_mainContent false ;;
            setAttribute_dir (lit "rtl") ;;
            setAttribute_lang (lit "ar") ;;
            setIsTranslated true)
         (fun error => console_error (TranslationFailed error)))
      (setIsTranslating false).

Definition resetTranslation (isTranslated isTranslating : bool) : M unit :=
  if negb isTranslated then ret tt
  else translate isTranslated isTranslating.

(** The context value of the render that sees the state of [w]. *)
Definition value (w : world) : TranslationContextType :=
  Build_TranslationContextType
    (st_isTranslated w)
    (st_isTranslating w)
    (translate (st_isTranslated w) (st_isTranslating w))
    (resetTranslation (st_isTranslated w) (st_isTranslating w)).

End Component.
End TranslationProvider.

(** ** The accessor *)

(** [useContext(TranslationContext)] in a component whose enclosing
    providers, innermost first, supply [providers]; the default value of
    the context is [undefined]. *)
Definition useContext (providers : list TranslationContextType)
  : option TranslationContextType :=
  head providers.

Definition useTranslation (providers : list TranslationContextType)
  : completion TranslationContextType :=
  let context := useContext providers in
  match context with
  | None =>
      Throw (Error
        (lit "useTranslation must be used within a TranslationProvider"))
  | Some context => Normal context
  end.

(** Run an operation of the state holder and keep the world it leaves. *)
Definition exec {A} (m : M A) (w : world) : world := snd (m w).

(** The user triggers [translate] (resp. [resetTranslation]) of the latest
    render. *)
Definition toggle {T : Translations} {host : Host} (w : world) : world :=
  exec (translate (TranslationProvider.value w)) w.

Definition reset {T : Translations} {host : Host} (w : world) : world :=
  exec (resetTranslation (TranslationProvider.value w)) w.

(** ** Vocabulary of the statements *)

(** The tags the walk cuts at. *)
Definition skipped (tagName : jsstring) : bool :=
  bool_decide (tagName = lit "SCRIPT")
  || bool_decide (tagName = lit "STYLE")
  || bool_decide (tagName = lit "NOSCRIPT").

(** The node found by following child indices from [n]. *)
Fixpoint subtree_at (path : list nat) (n : node) : option node :=
  match path with
  | [] => Some n
  | i :: path' =>
      match n with
      | Element _ childNodes =>
          match childNodes !! i with
          | Some c => subtree_at path' c
          | None => None
          end
      | _ => None
      end
  end.

(** Every element strictly above the node at [path] is one the walk
    enters: none of them carries a skipped tag. *)
Fixpoint reached (path : list nat) (n : node) : bool :=
  match path with
  | [] => true
  | i :: path' =>
      match n with
      | Element tagName childNodes =>
          negb (skipped tagName)
          && match childNodes !! i with
             | Some c => reached path' c
             | None => false
             end
      | _ => false
      end
  end.

(** The lookup of the chosen direction. *)
Definition candidate_of {T : Translations} (isReverse : bool) (t : jsstring)
  : completion jsstring :=
  if isReverse then reverseTranslateText t else translateText t.

(** A fragment: a non-empty payload that [trim] leaves as it is. *)
Definition fragment (t : jsstring) : Prop := t <> [] /\ trim t = t.

(** The payload the first loop leaves in a text node. *)
Definition payload_after {T : Translations} (isReverse : bool)
    (textContent : jsstring) : jsstring :=
  let t := trim textContent in
  if truthy t && negb (symbols_only t) then
    match candidate_of isReverse t with
    | Normal c =>
        if bool_decide (c = t) then textContent
        else match_leading_space textContent ++ c
             ++ match_trailing_space textContent
    | Throw _ => textContent
    end
  else textContent.

(** The tree left by a walk that rewrites the payloads with [f]. *)
Fixpoint rewritten (f : jsstring -> jsstring) (n : node) : node :=
  match n with
  | Text textContent => Text (f textContent)
  | Element tagName childNodes =>
      if skipped tagName then n
      else Element tagName (List.map (rewritten f) childNodes)
  | Comment _ => n
  end.

(** What the first loop makes of a child node. *)
Definition first_loop (f : jsstring -> jsstring) (n : node) : node :=
  match n with
  | Text textContent => Text (f textContent)
  | _ => n
  end.

(** What a walk started at [n] makes of [n]. *)
Definition walked {T : Translations} (isReverse : bool) (n : node) : node :=
  match n with
  | Element _ _ => rewritten (payload_after isReverse) n
  | _ => n
  end.

(** A lookup table that returns its argument where the given one throws. *)
Definition recovering (T : Translations) : Translations := {|
  translateText t :=
    match @translateText T t with Normal c => Normal c | Throw _ => Normal t end;
  reverseTranslateText t :=
    match @reverseTranslateText T t with
    | Normal c => Normal c
    | Throw _ => Normal t
    end
|}.

(** ** Sample tables and documents *)

Module Samples.

Definition hello : jsstring := lit "Hello world".

Definition marhaban : jsstring :=
  [1605; 1585; 1581; 1576; 1575; 32; 1576; 1575; 1604; 1593; 1575; 1604;
   1605]%N.

(** One entry, [hello] to [marhaban], and its inverse. *)
#[local] Instance greeting : Translations := {|
  translateText t :=
    Normal (if bool_decide (t = hello) then marhaban else t);
  reverseTranslateText t :=
    Normal (if bool_decide (t = marhaban) then hello else t)
|}.

(** A table that exchanges ["Hello"] and ["!"]; it is its own inverse. *)
Definition exchange (t : jsstring) : jsstring :=
  if bool_decide (t = lit "Hello") then lit "!"
  else if bool_decide (t = lit "!") then lit "Hello"
  else t.

#[local] Instance exchanging : Translations := {|
  translateText t := Normal (exchange t);
  reverseTranslateText t := Normal (exchange t)
|}.

(** A table with an entry for ["42"]: the Arabic-Indic digits. *)
#[local] Instance numerals : Translations := {|
  translateText t :=
    Normal (if bool_decide (t = lit "42") then [1636; 1634]%N else t);
  reverseTranslateText t :=
    Normal (if bool_decide (t = [1636; 1634]%N) then lit "42" else t)
|}.

(** A table whose forward lookup throws on ["boom"]. *)
#[local] Instance faulty : Translations := {|
  translateText t :=
    if bool_decide (t = lit "boom") then Throw (Error (lit "no entry"))
    else Normal (if bool_decide (t = hello) then marhaban else t);
  reverseTranslateText t := Normal t
|}.

#[local] Instance host : Host := {|
  Date_now k := lit "1700000000000";
  Math_random k := lit "0.5"
|}.

(** A freshly mounted provider over a document with the given content
    root and attributes. *)
Definition mounted (html_dir html_lang : option jsstring)
    (mainContent : option node) : world :=
  World false false ∅ html_dir html_lang mainContent [] 0.

Definition paragraph (textContent : jsstring) : node :=
  Element (lit "MAIN") [Element (lit "P") [Text textContent]].

Definition page : node :=
  Element (lit "MAIN")
    [ Text (lit "  Hello world  ");
      Comment (lit "note");
      Element (lit "SCRIPT") [Text (lit "Hello world")];
      Element (lit "P") [Text (lit "boom"); Text (lit " ?! ")];
      Element (lit "DIV") [Element (lit "STYLE") [Text (lit "Hello world")];
                           Text (lit "Hello world")] ].

(** A table that exchanges [hello] and [marhaban] in both directions. *)
Definition swap (t : jsstring) : jsstring :=
  if bool_decide (t = hello) then marhaban
  else if bool_decide (t = marhaban) then hello
  else t.

#[local] Instance swapping : Translations := {|
  translateText t := Normal (swap t);
  reverseTranslateText t := Normal (swap t)
|}.

End Samples.

(** ** Vocabulary of the further properties *)

(** The tree without its text payloads: kinds, tags, order and comments. *)
Fixpoint shape (n : node) : node :=
  match n with
  | Text _ => Text []
  | Element tagName childNodes => Element tagName (List.map shape childNodes)
  | Comment data => Comment data
  end.

(** The world after lines 56 to 59 for a fragment that is rewritten: the
    clock and the random source are read, and a Forward walk records the
    fragment under the identifier made of the two readings. *)
Definition rewrite_effect {host : Host} (isReverse : bool)
    (currentText : jsstring) (w : world) : world :=
  World (st_isTranslated w) (st_isTranslating w)
    (if isReverse then st_originalTexts w
     else <[lit "text-" ++ Date_now (drawn w) ++ lit "-"
            ++ Math_random (drawn w) := currentText]> (st_originalTexts w))
    (html_dir w) (html_lang w) (mainContent w) (console w) (S (drawn w)).

(** The world after line 67 for a fragment whose lookup throws. *)
Definition failure_effect (currentText : jsstring) (error : exn) (w : world)
  : world :=
  World (st_isTranslated w) (st_isTranslating w) (st_originalTexts w)
    (html_dir w) (html_lang w) (mainContent w)
    (console w ++ [FailedToTranslateText currentText error]) (drawn w).

(** The state of the three [useState] hooks when the provider mounts. *)
Definition mount (html_dir html_lang : option jsstring)
    (mainContent : option node) (console : list log_entry) (drawn : nat)
  : world :=
  World false false ∅ html_dir html_lang mainContent console drawn.

(** What a consumer can ask of the provider. *)
Inductive action := Toggle | Reset.

Definition perform {T : Translations} {host : Host} (a : action) (w : world)
  : world :=
  match a with
  | Toggle => toggle w
  | Reset => reset w
  end.

(** A series of requests, each made of the render that follows the one
    before. *)
Definition perform_all {T : Translations} {host : Host}
    (actions : list action) (w : world) : world :=
  fold_left (fun w a => perform a w) actions w.


(** The states the holder can be left in by requests made after a mount
    of a document whose root carries [dir0] and [lang0]: no toggle is in
    flight; in mode TRANSLATED the root is marked right-to-left and
    Arabic; in mode ORIGINAL nothing is recorded and the root carries
    either what it carried at the mount or the marks of a toggle back. *)
Definition settled (dir0 lang0 : option jsstring) (w : world) : Prop :=
  st_isTranslating w = false
  /\ (st_isTranslated w = true ->
      html_dir w = Some (lit "rtl") /\ html_lang w = Some (lit "ar"))
  /\ (st_isTranslated w = false ->
      st_originalTexts w = ∅
      /\ ((html_dir w = dir0 /\ html_lang w = lang0)
          \/ (html_dir w = Some (lit "ltr")
              /\ html_lang w = Some (lit "en")))).

(** * Properties *)

(** ** White space at the two ends of a string *)

Section Spaces.
Implicit Types s t l c : jsstring.

Lemma take_drop_while p s : take_while p s ++ drop_while p s = s.
Proof. induction s as [|a s IH]; simpl; [done|]. destruct (p a); simpl; congruence. Qed.

Lemma leading_space_is_space s : forallb is_space (match_leading_space s) = true.
Proof.
  unfold match_leading_space. induction s as [|a s IH]; simpl; [done|].
  destruct (is_space a) eqn:E; simpl; [|done]. by rewrite E.
Qed.

Lemma trailing_space_is_space s : forallb is_space (match_trailing_space s) = true.
Proof.
  induction s as [|a s IH]; [done|].
  change (match_trailing_space (a :: s))
    with (if forallb is_space (a :: s) then a :: s else match_trailing_space s).
  by destruct (forallb is_space (a :: s)) eqn:E.
Qed.

Lemma trim_end_trailing s : trim_end s ++ match_trailing_space s = s.
Proof.
  induction s as [|a s IH]; [done|].
  change (trim_end (a :: s))
    with (if forallb is_space (a :: s) then [] else a :: trim_end s).
  change (match_trailing_space (a :: s))
    with (if forallb is_space (a :: s) then a :: s else match_trailing_space s).
  destruct (forallb is_space (a :: s)); simpl; congruence.
Qed.

Lemma trim_end_spaces s : forallb is_space s = true -> trim_end s = [].
Proof. destruct s as [|a s]; [done|]. intros E. simpl in *. by rewrite E. Qed.

Lemma trim_end_app_spaces s t :
  forallb is_space t = true -> trim_end (s ++ t) = trim_end s.
Proof.
  intros Ht. induction s as [|a s IH]; [by apply trim_end_spaces|].
  change (trim_end ((a :: s) ++ t))
    with (if forallb is_space (a :: s ++ t) then [] else a :: trim_end (s ++ t)).
  change (trim_end (a :: s))
    with (if forallb is_space (a :: s) then [] else a :: trim_end s).
  rewrite IH. simpl. by rewrite forallb_app, Ht, andb_true_r.
Qed.

Lemma trailing_app_spaces s t :
  forallb is_space t = true ->
  match_trailing_space (s ++ t) = match_trailing_space s ++ t.
Proof.
  intros Ht. induction s as [|a s IH].
  - destruct t as [|b t]; [done|]. simpl in *. by rewrite Ht.
  - change (match_trailing_space ((a :: s) ++ t))
      with (if forallb is_space (a :: s ++ t) then a :: s ++ t
            else match_trailing_space (s ++ t)).
    change (match_trailing_space (a :: s))
      with (if forallb is_space (a :: s) then a :: s else match_trailing_space s).
    rewrite IH. cbn [forallb]. rewrite forallb_app, Ht, andb_true_r.
    by destruct (is_space a && forallb is_space s).
Qed.

Lemma trailing_spaces_app l s :
  forallb is_space s = false ->
  match_trailing_space (l ++ s) = match_trailing_space s.
Proof.
  intros Hs. induction l as [|a l IH]; [done|].
  change (match_trailing_space ((a :: l) ++ s))
    with (if forallb is_space (a :: l ++ s) then a :: l ++ s
          else match_trailing_space (l ++ s)).
  simpl. by rewrite forallb_app, Hs, andb_false_r, andb_false_r.
Qed.

Lemma take_while_spaces_app l s :
  forallb is_space l = true ->
  take_while is_space (l ++ s) = l ++ take_while is_space s.
Proof.
  induction l as [|a l IH]; [done|]. simpl. intros [Ha Hl]%andb_true_iff.
  rewrite Ha. f_equal. by apply IH.
Qed.

Lemma drop_while_spaces_app l s :
  forallb is_space l = true ->
  drop_while is_space (l ++ s) = drop_while is_space s.
Proof.
  induction l as [|a l IH]; [done|]. simpl. intros [Ha Hl]%andb_true_iff.
  rewrite Ha. by apply IH.
Qed.

Lemma trim_end_not_spaces s :
  forallb is_space s = false -> forallb is_space (trim_end s) = false.
Proof.
  induction s as [|a s IH]; [done|]. intros E.
  change (trim_end (a :: s))
    with (if forallb is_space (a :: s) then [] else a :: trim_end s).
  rewrite E. simpl in *. destruct (is_space a); [|done]. by apply IH.
Qed.

Lemma trim_end_nil_spaces s : trim_end s = [] -> forallb is_space s = true.
Proof.
  destruct s as [|a s]; [done|].
  change (trim_end (a :: s))
    with (if forallb is_space (a :: s) then [] else a :: trim_end s).
  by destruct (forallb is_space (a :: s)).
Qed.

Lemma trim_end_idemp s : trim_end (trim_end s) = trim_end s.
Proof.
  induction s as [|a s IH]; [done|].
  change (trim_end (a :: s))
    with (if forallb is_space (a :: s) then [] else a :: trim_end s).
  destruct (forallb is_space (a :: s)) eqn:E; [done|].
  change (trim_end (a :: trim_end s))
    with (if forallb is_space (a :: trim_end s) then []
          else a :: trim_end (trim_end s)).
  rewrite IH. simpl in *. destruct (is_space a); simpl in *; [|done].
  by rewrite (trim_end_not_spaces _ E).
Qed.

(** The head of a dropped string is not white space. *)
Lemma drop_while_head s :
  match drop_while is_space s with
  | [] => True
  | a :: _ => is_space a = false
  end.
Proof.
  induction s as [|a s IH]; [done|]. simpl.
  by destruct (is_space a) eqn:E.
Qed.

Lemma drop_while_fixed a s :
  is_space a = false -> drop_while is_space (a :: s) = a :: s.
Proof. intros E. simpl. by rewrite E. Qed.

End Spaces.

(** ** Fragments *)

Lemma fragment_ends c :
  fragment c ->
  exists a c', c = a :: c' /\ is_space a = false /\ trim_end c = c
               /\ match_trailing_space c = [].
Proof.
  intros [Hne Htrim]. unfold trim in Htrim.
  pose proof (take_drop_while is_space c) as Hsplit.
  pose proof (trim_end_trailing (drop_while is_space c)) as Hd.
  rewrite Htrim in Hd.
  assert (take_while is_space c = []
          /\ match_trailing_space (drop_while is_space c) = []) as [Hl Ht].
  { apply (f_equal length) in Hsplit. rewrite <- Hd in Hsplit.
    rewrite !length_app in Hsplit.
    split; apply length_zero_iff_nil; lia. }
  rewrite Hl in Hsplit. simpl in Hsplit. rewrite Hsplit in Htrim, Ht.
  pose proof (drop_while_head c) as Hhead. rewrite Hsplit in Hhead.
  destruct c as [|a c']; [done|]. by exists a, c'.
Qed.

Lemma trim_fragment p : trim p <> [] -> fragment (trim p).
Proof.
  intros Hne. split; [done|]. unfold trim in *.
  pose proof (drop_while_head p) as Hhead.
  destruct (drop_while is_space p) as [|a d] eqn:Ed; [done|].
  assert (trim_end (a :: d) = a :: trim_end d) as Hcons.
  { change (trim_end (a :: d))
      with (if forallb is_space (a :: d) then [] else a :: trim_end d).
    simpl. by rewrite Hhead. }
  rewrite Hcons, drop_while_fixed, <- Hcons by done. apply trim_end_idemp.
Qed.

(** A payload with a fragment in it is its leading white space, its
    trimmed text and its trailing white space. *)
Lemma payload_split p :
  trim p <> [] ->
  match_leading_space p ++ trim p ++ match_trailing_space p = p.
Proof.
  intros Hne. unfold match_leading_space, trim in *.
  assert (forall l d, forallb is_space d = false ->
            l ++ trim_end d ++ match_trailing_space (l ++ d) = l ++ d) as Haux.
  { intros l d Hd. by rewrite (trailing_spaces_app _ _ Hd), trim_end_trailing. }
  specialize (Haux (take_while is_space p) (drop_while is_space p)).
  rewrite take_drop_while in Haux. apply Haux.
  destruct (forallb is_space (drop_while is_space p)) eqn:E; [|done].
  by rewrite trim_end_spaces in Hne.
Qed.

(** Conversely, white space around a fragment is found again. *)
Lemma payload_join l c t :
  forallb is_space l = true -> forallb is_space t = true -> fragment c ->
  match_leading_space (l ++ c ++ t) = l
  /\ trim (l ++ c ++ t) = c
  /\ match_trailing_space (l ++ c ++ t) = t.
Proof.
  intros Hl Ht (a & c' & -> & Ha & Hend & Htrail)%fragment_ends.
  unfold match_leading_space, trim. repeat split.
  - rewrite take_while_spaces_app by done. simpl. rewrite Ha. apply app_nil_r.
  - rewrite drop_while_spaces_app by done.
    change ((a :: c') ++ t) with (a :: (c' ++ t)).
    rewrite drop_while_fixed by done.
    change (a :: c' ++ t) with ((a :: c') ++ t).
    by rewrite trim_end_app_spaces.
  - rewrite trailing_spaces_app.
    + rewrite trailing_app_spaces by done. by rewrite Htrail.
    + simpl. by rewrite Ha.
Qed.

Lemma truthy_length s : truthy s = true -> (length s <? 1) = false.
Proof. by destruct s. Qed.

Lemma truthy_not_nil s : truthy s = true <-> s <> [].
Proof. by destruct s. Qed.

(** ** What the walk returns *)

Section WalkResult.
Context {T : Translations} {host : Host}.
Import TranslationProvider.

Lemma translateTextNode_returns isReverse textContent w :
  truthy (trim textContent) = true ->
  exists w',
    translateTextNode isReverse textContent w
    = (Normal (payload_after isReverse textContent), w').
Proof.
  intros Ht. unfold translateTextNode, payload_after.
  rewrite (truthy_length _ Ht), Ht. simpl.
  destruct (symbols_only (trim textContent)); simpl; [by eexists|].
  unfold try_catch, bind, call, candidate_of, strict_neq.
  destruct isReverse; simpl.
  - destruct (reverseTranslateText (trim textContent)) as [c|e]; [|by eexists].
    destruct (bool_decide (c = trim textContent)); simpl; by eexists.
  - destruct (translateText (trim textContent)) as [c|e]; [|by eexists].
    destruct (bool_decide (c = trim textContent)); simpl; by eexists.
Qed.

Lemma payload_after_blank isReverse textContent :
  truthy (trim textContent) = false ->
  payload_after isReverse textContent = textContent.
Proof. intros Ht. unfold payload_after. by rewrite Ht. Qed.

Lemma processChildNode_returns isReverse n w :
  exists w',
    processChildNode isReverse n w
    = (Normal (first_loop (payload_after isReverse) n), w').
Proof.
  destruct n as [textContent| |]; simpl; try by eexists.
  destruct (truthy (trim textContent)) eqn:Ht.
  - destruct (translateTextNode_returns isReverse textContent w Ht) as [w' Hw].
    unfold bind. rewrite Hw. by eexists.
  - rewrite payload_after_blank by done. by eexists.
Qed.

Lemma first_loop_returns isReverse l w :
  exists w',
    for_each (processChildNode isReverse) l w
    = (Normal (List.map (first_loop (payload_after isReverse)) l), w').
Proof.
  revert w. induction l as [|n l IH]; intros w; simpl; [by eexists|].
  destruct (processChildNode_returns isReverse n w) as [w1 H1].
  destruct (IH w1) as [w2 H2].
  unfold bind at 1. rewrite H1. unfold bind at 1. rewrite H2. by eexists.
Qed.

(** The walk of an element returns, and returns the element with the
    payloads of the text nodes it reaches rewritten. *)
Lemma walk_returns n isReverse w :
  exists w',
    translateElementsRecursively n isReverse w
    = (Normal (walked isReverse n), w').
Proof.
  revert w.
  induction n as [textContent|tagName childNodes IH|data] using node_induction;
    intros w; simpl; try by eexists.
  fold (skipped tagName). destruct (skipped tagName); [by eexists|].
  destruct (first_loop_returns isReverse childNodes w) as [w1 H1].
  unfold bind at 1. rewrite H1. clear H1 w.
  match goal with
  | |- context [bind (?loop childNodes ?cur) _] =>
      assert (exists w2,
        loop childNodes cur w1
        = (Normal (List.map (rewritten (payload_after isReverse)) childNodes),
           w2)) as [w2 H2]
  end.
  { revert w1. induction IH as [|c l Hc _ IHl]; intros w1; [by eexists|].
    simpl. destruct c as [textContent|tag kids|data].
    - destruct (IHl w1) as [w2 H2].
      unfold bind at 1. unfold ret at 1. unfold bind at 1.
      rewrite H2. by eexists.
    - destruct (Hc w1) as [w2 H2]. unfold bind at 1. rewrite H2.
      destruct (IHl w2) as [w3 H3]. unfold bind at 1. rewrite H3.
      by eexists.
    - destruct (IHl w1) as [w2 H2].
      unfold bind at 1. unfold ret at 1. unfold bind at 1.
      rewrite H2. by eexists. }
  unfold bind at 1. rewrite H2. by eexists.
Qed.

End WalkResult.

(** ** Paths into a rewritten tree *)

Lemma lookup_map (f : node -> node) (l : list node) i :
  List.map f l !! i = match l !! i with Some c => Some (f c) | None => None end.
Proof. revert i. induction l as [|c l IH]; intros [|i]; simpl; auto. Qed.

Lemma rewritten_skipped f tagName childNodes :
  skipped tagName = true ->
  rewritten f (Element tagName childNodes) = Element tagName childNodes.
Proof. intros Hs. simpl. by rewrite Hs. Qed.

Lemma subtree_at_rewritten f path n s :
  subtree_at path n = Some s ->
  subtree_at path (rewritten f n)
  = Some (if reached path n then rewritten f s else s).
Proof.
  revert n. induction path as [|i path IH]; intros n Hs; simpl in *.
  - by inversion Hs.
  - destruct n as [|tagName childNodes|]; try done.
    destruct (childNodes !! i) as [c|] eqn:Hc; [|done].
    simpl. destruct (skipped tagName); simpl.
    + by rewrite Hc.
    + rewrite lookup_map, Hc. by apply IH.
Qed.

Lemma reached_rewritten f path n :
  reached path (rewritten f n) = reached path n.
Proof.
  revert n. induction path as [|i path IH]; intros n; [done|].
  destruct n as [|tagName childNodes|]; try done.
  simpl. destruct (skipped tagName) eqn:Hs; simpl; rewrite Hs; [done|].
  simpl. rewrite lookup_map. destruct (childNodes !! i); [apply IH|done].
Qed.

Lemma rewritten_ext f g n :
  (forall p, f p = g p) -> rewritten f n = rewritten g n.
Proof.
  intros Hfg.
  induction n as [p|tagName childNodes IH|data] using node_induction; simpl.
  - by rewrite Hfg.
  - destruct (skipped tagName); [done|]. f_equal.
    induction IH as [|c l Hc _ IHl]; simpl; congruence.
  - done.
Qed.

(** A child of an element that the walk enters is reached. *)
Lemma reached_child path n tagName childNodes i c :
  subtree_at path n = Some (Element tagName childNodes) ->
  reached path n = true ->
  skipped tagName = false ->
  childNodes !! i = Some c ->
  subtree_at (path ++ [i]) n = Some c /\ reached (path ++ [i]) n = true.
Proof.
  revert n. induction path as [|j path IH]; intros n Hs Hr Ht Hc; simpl in *.
  - inversion Hs; subst. by rewrite Ht, Hc.
  - destruct n as [|tag kids|]; try done.
    destruct (kids !! j) as [k|]; [|done].
    apply andb_true_iff in Hr as [-> Hr]. simpl. by apply IH.
Qed.

(** ** The payload of one text node *)

Section Payload.
Context {T : Translations}.

Lemma payload_after_computed isReverse textContent candidate :
  trim textContent <> [] ->
  symbols_only (trim textContent) = false ->
  candidate_of isReverse (trim textContent) = Normal candidate ->
  payload_after isReverse textContent
  = if bool_decide (candidate = trim textContent) then textContent
    else match_leading_space textContent ++ candidate
         ++ match_trailing_space textContent.
Proof.
  intros Hne%truthy_not_nil Hsym Hc. unfold payload_after.
  by rewrite Hne, Hsym, Hc.
Qed.

Lemma payload_after_symbols isReverse textContent :
  symbols_only (trim textContent) = true ->
  payload_after isReverse textContent = textContent.
Proof. intros Hs. unfold payload_after. by rewrite Hs, andb_false_r. Qed.

Lemma payload_after_thrown isReverse textContent e :
  candidate_of isReverse (trim textContent) = Throw e ->
  payload_after isReverse textContent = textContent.
Proof.
  intros He. unfold payload_after. rewrite He.
  by destruct (truthy _ && negb _).
Qed.

Lemma payload_after_recovering isReverse textContent :
  payload_after (T := recovering T) isReverse textContent
  = payload_after isReverse textContent.
Proof.
  unfold payload_after. destruct (truthy _ && negb _); [|done].
  unfold candidate_of. destruct isReverse; simpl.
  - destruct (reverseTranslateText (trim textContent)); [done|].
    by rewrite bool_decide_eq_true_2.
  - destruct (translateText (trim textContent)); [done|].
    by rewrite bool_decide_eq_true_2.
Qed.

(** A payload changed by the forward lookup is restored by the reverse
    lookup when the candidate can be looked up again and maps back. *)
Lemma payload_roundtrip textContent :
  (forall t c, fragment t -> symbols_only t = false ->
     translateText t = Normal c -> c <> t ->
     reverseTranslateText c = Normal t) ->
  (forall t c, fragment t -> symbols_only t = false ->
     translateText t = Normal c -> c <> t ->
     fragment c /\ symbols_only c = false) ->
  payload_after false textContent <> textContent ->
  payload_after true (payload_after false textContent) = textContent.
Proof.
  intros Hinv Hwalk Hchanged. unfold payload_after at 2.
  unfold payload_after in Hchanged. revert Hchanged.
  destruct (truthy (trim textContent)) eqn:Ht; [|done].
  destruct (symbols_only (trim textContent)) eqn:Hs; [done|].
  simpl. destruct (translateText (trim textContent)) as [c|e] eqn:Hc; [|done].
  destruct (bool_decide (c = trim textContent)) eqn:Hd; [done|]. intros _.
  apply bool_decide_eq_false in Hd.
  apply truthy_not_nil in Ht as Hne.
  pose proof (trim_fragment _ Hne) as Hfrag.
  destruct (Hwalk _ _ Hfrag Hs Hc Hd) as [Hfc Hsc].
  destruct (payload_join (match_leading_space textContent) c
              (match_trailing_space textContent)) as (Hl & Hm & Hr);
    auto using leading_space_is_space, trailing_space_is_space.
  unfold payload_after. rewrite Hl, Hm, Hr.
  destruct Hfc as [Hcne _]. apply truthy_not_nil in Hcne.
  rewrite Hcne, Hsc. simpl. rewrite (Hinv _ _ Hfrag Hs Hc Hd).
  rewrite bool_decide_eq_false_2 by congruence.
  by apply payload_split.
Qed.

End Payload.

(** ** The tree walker *)

Section WalkerClaims.
Context {T : Translations} {host : Host}.

#[local] Abbreviation walk := TranslationProvider.translateElementsRecursively.

(** A text node at [path] under a walked root holds its rewritten payload
    when the walk reaches it and its old payload otherwise. *)
Lemma text_after_walk isReverse root path textContent :
  subtree_at path root = Some (Text textContent) ->
  subtree_at path (walked isReverse root)
  = Some (Text (if reached path root
                   && match root with Element _ _ => true | _ => false end
                then payload_after isReverse textContent
                else textContent)).
Proof.
  intros Hs. destruct root as [p|tagName childNodes|d].
  - rewrite andb_false_r. done.
  - rewrite andb_true_r. unfold walked.
    rewrite (subtree_at_rewritten _ _ _ _ Hs).
    by destruct (reached path _).
  - rewrite andb_false_r. done.
Qed.

Lemma walked_element isReverse tagName childNodes :
  exists childNodes',
    walked isReverse (Element tagName childNodes) = Element tagName childNodes'.
Proof. unfold walked. simpl. destruct (skipped tagName); by eexists. Qed.

(** C1 (amended): after a Forward walk and then a Reverse walk of the same
    tree, every text node whose payload the Forward walk changed holds its
    original payload again, white space included, provided that for every
    fragment the walk looks up, a forward candidate different from the
    fragment (i) is mapped back to the fragment by the reverse lookup and
    (ii) is itself a fragment that the exclusion pattern does not match. *)
Theorem reverse_restores_forward_rewrites
    (Hinverse : forall t c, fragment t -> symbols_only t = false ->
       translateText t = Normal c -> c <> t ->
       reverseTranslateText c = Normal t)
    (Hcandidate : forall t c, fragment t -> symbols_only t = false ->
       translateText t = Normal c -> c <> t ->
       fragment c /\ symbols_only c = false)
    (root : node) (w : world) :
  exists root1 w1 root2 w2,
    walk root false w = (Normal root1, w1)
    /\ walk root1 true w1 = (Normal root2, w2)
    /\ forall path textContent,
         subtree_at path root = Some (Text textContent) ->
         subtree_at path root1 <> Some (Text textContent) ->
         subtree_at path root2 = Some (Text textContent).
Proof.
  destruct (walk_returns root false w) as [w1 H1].
  destruct (walk_returns (walked false root) true w1) as [w2 H2].
  exists (walked false root), w1, (walked true (walked false root)), w2.
  split; [done|]. split; [done|]. intros path p Hs Hchanged.
  rewrite (text_after_walk false _ _ _ Hs) in Hchanged.
  pose proof (text_after_walk false _ _ _ Hs) as Hs1.
  destruct root as [q|tagName childNodes|d];
    try (rewrite andb_false_r in Hchanged; done).
  rewrite andb_true_r in Hchanged, Hs1.
  destruct (reached path (Element tagName childNodes)) eqn:Hr; [|done].
  rewrite (text_after_walk true _ _ _ Hs1).
  destruct (walked_element false tagName childNodes) as [kids Hk].
  rewrite Hk at 1 2. rewrite andb_true_r. rewrite <- Hk.
  unfold walked at 1. rewrite reached_rewritten, Hr.
  f_equal. f_equal. apply payload_roundtrip; [done|done|congruence].
Qed.

(** C4: an element with the tag SCRIPT, STYLE or NOSCRIPT is returned as
    it is, with no effect at all, when the walk is started on it; and
    wherever such an element lies in the tree that is walked, its whole
    subtree is the same after the walk, in both directions. *)
Theorem skipped_subtree_is_untouched
    (root : node) (path : list nat) (tagName : jsstring)
    (childNodes : list node) (isReverse : bool) (w : world) :
  subtree_at path root = Some (Element tagName childNodes) ->
  tagName = lit "SCRIPT" \/ tagName = lit "STYLE"
  \/ tagName = lit "NOSCRIPT" ->
  walk (Element tagName childNodes) isReverse w
  = (Normal (Element tagName childNodes), w)
  /\ exists root' w',
       walk root isReverse w = (Normal root', w')
       /\ subtree_at path root' = Some (Element tagName childNodes).
Proof.
  intros Hs Htag.
  assert (skipped tagName = true) as Hskip.
  { unfold skipped. destruct Htag as [->| [->| ->]]; done. }
  split.
  - simpl. fold (skipped tagName). by rewrite Hskip.
  - destruct (walk_returns root isReverse w) as [w' Hw].
    exists (walked isReverse root), w'. split; [done|].
    destruct root as [p|tag kids|d].
    + destruct path; [done|done].
    + unfold walked. rewrite (subtree_at_rewritten _ _ _ _ Hs).
      rewrite rewritten_skipped by done. by destruct (reached _ _).
    + destruct path; [done|done].
Qed.

(** C5: let a text node be a child of an element that the walk enters, let
    its trimmed payload be non-empty and not matched by the exclusion
    pattern, and let the lookup of the chosen direction return a
    candidate.  If the candidate differs from the trimmed payload, the
    payload after the walk is the leading white space of the old payload,
    then the candidate, then the trailing white space of the old payload;
    if it is equal, the payload is the old one. *)
Theorem candidate_is_wrapped_in_original_space
    (root : node) (path : list nat) (tagName : jsstring)
    (childNodes : list node) (i : nat) (textContent candidate : jsstring)
    (isReverse : bool) (w : world) :
  subtree_at path root = Some (Element tagName childNodes) ->
  reached path root = true ->
  skipped tagName = false ->
  childNodes !! i = Some (Text textContent) ->
  trim textContent <> [] ->
  symbols_only (trim textContent) = false ->
  candidate_of isReverse (trim textContent) = Normal candidate ->
  exists root' w',
    walk root isReverse w = (Normal root', w')
    /\ subtree_at (path ++ [i]) root'
       = Some (Text (if bool_decide (candidate = trim textContent)
                     then textContent
                     else match_leading_space textContent ++ candidate
                          ++ match_trailing_space textContent)).
Proof.
  intros Hs Hr Hskip Hi Hne Hsym Hc.
  destruct (walk_returns root isReverse w) as [w' Hw].
  exists (walked isReverse root), w'. split; [done|].
  destruct (reached_child _ _ _ _ _ _ Hs Hr Hskip Hi) as [Hs' Hr'].
  rewrite (text_after_walk _ _ _ _ Hs'), Hr'.
  destruct root as [p|tag kids|d].
  - destruct path; done.
  - simpl. by rewrite (payload_after_computed _ _ _ Hne Hsym Hc).
  - destruct path; done.
Qed.

(** C7: whatever the lookups throw, the walk returns normally; the tree it
    leaves is the one left with a table that returns its argument
    wherever the given table throws, so every other fragment and child
    element is processed as usual; and a text node whose lookup throws
    keeps its payload. *)
Theorem fragment_failure_is_contained
    (root : node) (isReverse : bool) (w : world) :
  exists root' w',
    walk root isReverse w = (Normal root', w')
    /\ fst (walk (T := recovering T) root isReverse w) = Normal root'
    /\ forall path textContent e,
         subtree_at path root = Some (Text textContent) ->
         candidate_of isReverse (trim textContent) = Throw e ->
         subtree_at path root' = Some (Text textContent).
Proof.
  destruct (walk_returns root isReverse w) as [w' Hw].
  exists (walked isReverse root), w'. split; [done|]. split.
  - destruct (walk_returns (T := recovering T) root isReverse w) as [w2 H2].
    rewrite H2. simpl. f_equal. destruct root; try done.
    apply rewritten_ext, payload_after_recovering.
  - intros path p e Hs He. rewrite (text_after_walk _ _ _ _ Hs).
    rewrite (payload_after_thrown _ _ _ He). by destruct (_ && _).
Qed.

(** The part of the exclusion that the pattern does implement: a text
    node whose trimmed payload has only code units outside the word
    class, the white space class and the range U+0600 to U+06FF keeps its
    payload, in both directions and for every table. *)
Lemma symbols_only_payload_is_kept
    (root : node) (path : list nat) (textContent : jsstring)
    (isReverse : bool) (w : world) :
  subtree_at path root = Some (Text textContent) ->
  symbols_only (trim textContent) = true ->
  exists root' w',
    walk root isReverse w = (Normal root', w')
    /\ subtree_at path root' = Some (Text textContent).
Proof.
  intros Hs Hsym. destruct (walk_returns root isReverse w) as [w' Hw].
  exists (walked isReverse root), w'. split; [done|].
  rewrite (text_after_walk _ _ _ _ Hs).
  rewrite (payload_after_symbols _ _ Hsym). by destruct (_ && _).
Qed.

End WalkerClaims.

(** ** The state holder *)

Section HolderClaims.
Context {T : Translations} {host : Host}.

Lemma bind_normal {A B} (m : M A) (k : A -> M B) w a w' :
  m w = (Normal a, w') -> bind m k w = k a w'.
Proof. intros E. unfold bind. by rewrite E. Qed.

Lemma bind_throw {A B} (m : M A) (k : A -> M B) w e w' :
  m w = (Throw e, w') -> bind m k w = (Throw e, w').
Proof. intros E. unfold bind. by rewrite E. Qed.

Lemma walk_mainContent_returns isReverse w element :
  mainContent w = Some element ->
  exists w',
    TranslationProvider.walk_mainContent isReverse w
    = (Normal tt,
       World (st_isTranslated w') (st_isTranslating w') (st_originalTexts w')
         (html_dir w') (html_lang w') (Some (walked isReverse element))
         (console w') (drawn w')).
Proof.
  intros Hmain. destruct (walk_returns element isReverse w) as [w' Hw].
  exists w'. unfold TranslationProvider.walk_mainContent. rewrite Hmain.
  by rewrite (bind_normal _ _ _ _ _ Hw).
Qed.

Lemma walk_mainContent_throws isReverse w :
  mainContent w = None ->
  TranslationProvider.walk_mainContent isReverse w
  = (Throw (TypeError (lit "Cannot read properties of null")), w).
Proof.
  intros Hmain. unfold TranslationProvider.walk_mainContent. by rewrite Hmain.
Qed.

(** The world left by a call of [translate] that is not refused and whose
    walk returns. *)
Lemma translate_completes isTranslated w element :
  mainContent w = Some element ->
  exists w',
    TranslationProvider.translate isTranslated false w
    = (Normal tt,
       World (negb isTranslated) false
         (if isTranslated then ∅ else st_originalTexts w')
         (Some (if isTranslated then lit "ltr" else lit "rtl"))
         (Some (if isTranslated then lit "en" else lit "ar"))
         (Some (walked isTranslated element))
         (console w') (drawn w')).
Proof.
  intros Hmain.
  destruct (walk_mainContent_returns isTranslated
              (snd (setIsTranslating true w)) element Hmain) as [w' Hw].
  exists w'. unfold TranslationProvider.translate.
  rewrite (bind_normal _ _ w tt (snd (setIsTranslating true w))) by done.
  unfold try_finally, try_catch.
  destruct isTranslated; rewrite (bind_normal _ _ _ _ _ Hw); reflexivity.
Qed.

(** The world left by a call of [translate] that is not refused and whose
    walk throws. *)
Lemma translate_fails isTranslated w :
  mainContent w = None ->
  TranslationProvider.translate isTranslated false w
  = (Normal tt,
     World (st_isTranslated w) false (st_originalTexts w) (html_dir w)
       (html_lang w) None
       (console w
        ++ [TranslationFailed
              (TypeError (lit "Cannot read properties of null"))])
       (drawn w)).
Proof.
  intros Hmain.
  pose proof (walk_mainContent_throws isTranslated
                (snd (setIsTranslating true w)) Hmain) as Hw.
  unfold TranslationProvider.translate.
  rewrite (bind_normal _ _ w tt (snd (setIsTranslating true w))) by done.
  unfold try_finally, try_catch.
  destruct isTranslated; rewrite (bind_throw _ _ _ _ _ Hw); simpl;
    by rewrite Hmain.
Qed.

(** C3 (amended): after a toggle whose walk returns and that ends in mode
    TRANSLATED, the [dir] attribute of the root is ["rtl"] and its [lang]
    attribute is ["ar"]; after a following toggle whose walk returns, the
    mode is ORIGINAL, [dir] is ["ltr"] and [lang] is ["en"], whatever the
    two attributes were before the first toggle. *)
Theorem toggle_writes_fixed_attributes (w : world) (element : node) :
  mainContent w = Some element ->
  st_isTranslating w = false ->
  st_isTranslated w = false ->
  let w1 := toggle w in
  let w2 := toggle w1 in
  (st_isTranslated w1 = true
   /\ html_dir w1 = Some (lit "rtl") /\ html_lang w1 = Some (lit "ar"))
  /\ (st_isTranslated w2 = false
      /\ html_dir w2 = Some (lit "ltr") /\ html_lang w2 = Some (lit "en")).
Proof.
  intros Hmain Hflight Hmode w1 w2.
  destruct (translate_completes false w element Hmain) as [w' H1].
  assert (w1 = snd (TranslationProvider.translate false false w)) as E1.
  { unfold w1, toggle, exec. simpl. by rewrite Hflight, Hmode. }
  rewrite H1 in E1. simpl in E1.
  destruct (translate_completes true w1 (walked false element)) as [w'' H2].
  { by rewrite E1. }
  assert (w2 = snd (TranslationProvider.translate true false w1)) as E2.
  { unfold w2, toggle, exec. simpl. by rewrite E1. }
  rewrite H2 in E2. simpl in E2.
  split; [by rewrite E1 | by rewrite E2].
Qed.

(** The guard of line 79 as the next render sees it: [translate] of a
    render that saw the in-flight flag set returns at once and leaves the
    world as it is. *)
Theorem toggle_in_flight_is_inert (w : world) :
  st_isTranslating w = true ->
  translate (TranslationProvider.value w) w = (Normal tt, w)
  /\ toggle w = w.
Proof.
  intros Hflight. unfold toggle, exec. simpl.
  unfold TranslationProvider.translate. by rewrite Hflight.
Qed.

(** A second call, made by the render that follows [setIsTranslating(true)]
    of a first call, finds the flag set. *)
Lemma toggle_during_toggle_is_inert (w : world) :
  toggle (exec (setIsTranslating true) w) = exec (setIsTranslating true) w.
Proof. reflexivity. Qed.

(** C8: a call of [translate] that is not refused always returns normally
    with the in-flight flag cleared; and when the walk throws, the error
    is logged by [translate] and the mode, the two attributes and the
    content are what they were before the call. *)
Theorem failed_walk_clears_flag_keeps_mode (isTranslated : bool) (w : world) :
  let r := TranslationProvider.translate isTranslated false w in
  (fst r = Normal tt /\ st_isTranslating (snd r) = false)
  /\ (mainContent w = None ->
      st_isTranslated (snd r) = st_isTranslated w
      /\ html_dir (snd r) = html_dir w
      /\ html_lang (snd r) = html_lang w
      /\ mainContent (snd r) = mainContent w
      /\ exists error, console (snd r) = console w ++ [TranslationFailed error]).
Proof.
  intros r. unfold r. destruct (mainContent w) as [element|] eqn:Hmain.
  - destruct (translate_completes isTranslated w element Hmain) as [w' ->].
    by split.
  - rewrite (translate_fails isTranslated w Hmain). simpl.
    split; [done|]. intros _. repeat split; try done. by eexists.
Qed.

(** C9: [resetTranslation] of a render that saw mode ORIGINAL returns
    without any effect; [resetTranslation] of a render that saw mode
    TRANSLATED is the very computation [translate] of that render. *)
Theorem reset_is_toggle_when_translated (w : world) :
  (st_isTranslated w = false ->
   resetTranslation (TranslationProvider.value w) w = (Normal tt, w)
   /\ reset w = w)
  /\ (st_isTranslated w = true ->
      resetTranslation (TranslationProvider.value w)
      = translate (TranslationProvider.value w)
      /\ reset w = toggle w).
Proof.
  unfold reset, toggle, exec. simpl. unfold TranslationProvider.resetTranslation.
  split; intros ->; done.
Qed.

(** C10: with no enclosing provider [useTranslation] throws; and a call
    that returns has an enclosing provider, whose value, a record of the
    mode flag, the in-flight flag, [translate] and [resetTranslation], is
    what it returns. *)
Theorem useTranslation_outside_provider_throws :
  (exists error, useTranslation [] = Throw error)
  /\ forall providers context,
       useTranslation providers = Normal context ->
       (exists outer, providers = context :: outer)
       /\ context
          = Build_TranslationContextType (isTranslated context)
              (isTranslating context) (translate context)
              (resetTranslation context).
Proof.
  split; [by eexists|]. intros providers context.
  destruct providers as [|c outer]; [done|].
  intros [= ->]. split; [by eexists|]. by destruct context.
Qed.

End HolderClaims.

(** ** The claims on sample documents *)

Section OnSamples.
Import Samples.

#[local] Abbreviation walk_with T :=
  (@TranslationProvider.translateElementsRecursively T host).

(** The scenario of the greeting: forward, then reverse. *)
Example greeting_scenario :
  let w0 := mounted None None (Some (paragraph (lit "  Hello world  "))) in
  let w1 := @toggle greeting host w0 in
  let w2 := @toggle greeting host w1 in
  (mainContent w1 = Some (paragraph (lit "  " ++ marhaban ++ lit "  "))
   /\ st_isTranslated w1 = true /\ html_dir w1 = Some (lit "rtl"))
  /\ (mainContent w2 = Some (paragraph (lit "  Hello world  "))
      /\ st_isTranslated w2 = false /\ html_dir w2 = Some (lit "ltr")).
Proof. vm_compute. repeat split. Qed.

(** Only the forward walk records original texts, one per rewritten node,
    and the toggle back clears the record. *)
Example greeting_record :
  let w0 := mounted None None (Some page) in
  let w1 := @toggle greeting host w0 in
  st_originalTexts w1
  = {[ lit "text-1700000000000-0.5" := lit "Hello world" ]}
  /\ drawn w1 = 2
  /\ st_originalTexts (@toggle greeting host w1) = ∅.
Proof. vm_compute. repeat split. Qed.

Lemma greeting_inverse t c :
  fragment t -> symbols_only t = false ->
  @translateText greeting t = Normal c -> c <> t ->
  @reverseTranslateText greeting c = Normal t.
Proof.
  intros _ _ [= <-] Hne. simpl. f_equal.
  destruct (bool_decide (t = hello)) eqn:E; [|done].
  apply bool_decide_eq_true in E. by subst.
Qed.

Lemma greeting_candidates t c :
  fragment t -> symbols_only t = false ->
  @translateText greeting t = Normal c -> c <> t ->
  fragment c /\ symbols_only c = false.
Proof.
  intros _ _ [= <-] Hne.
  destruct (bool_decide (t = hello)) eqn:E; [|done].
  by vm_compute.
Qed.

(** The greeting table meets both conditions; the sample page is walked
    forward and back. *)
Lemma reverse_restores_forward_rewrites_witness :
  let w := mounted None None (Some page) in
  exists root1 w1 root2 w2,
    walk_with greeting page false w = (Normal root1, w1)
    /\ walk_with greeting root1 true w1 = (Normal root2, w2)
    /\ forall path textContent,
         subtree_at path page = Some (Text textContent) ->
         subtree_at path root1 <> Some (Text textContent) ->
         subtree_at path root2 = Some (Text textContent).
Proof.
  exact (@reverse_restores_forward_rewrites greeting host
           greeting_inverse greeting_candidates page
           (mounted None None (Some page))).
Defined.

(** C1, as stated, fails: the table that exchanges ["Hello"] and ["!"] is
    its own inverse on every string, the Forward walk rewrites the payload
    ["Hello"] to ["!"], and the Reverse walk leaves ["!"] in place, since
    the exclusion pattern matches it. *)
Lemma exchanged_payload_is_not_restored :
  let root := paragraph (lit "Hello") in
  let w := mounted None None (Some root) in
  (forall t, exists c,
      @translateText exchanging t = Normal c
      /\ @reverseTranslateText exchanging c = Normal t)
  /\ exists root1 w1 root2 w2,
       walk_with exchanging root false w = (Normal root1, w1)
       /\ walk_with exchanging root1 true w1 = (Normal root2, w2)
       /\ subtree_at [0; 0] root = Some (Text (lit "Hello"))
       /\ subtree_at [0; 0] root1 = Some (Text (lit "!"))
       /\ subtree_at [0; 0] root2 = Some (Text (lit "!"))
       /\ subtree_at [0; 0] root2 <> subtree_at [0; 0] root.
Proof.
  split.
  - intros t. exists (exchange t). split; [done|]. simpl. f_equal.
    unfold exchange.
    destruct (bool_decide (t = lit "Hello")) eqn:E1.
    { apply bool_decide_eq_true in E1. by subst. }
    destruct (bool_decide (t = lit "!")) eqn:E2.
    { apply bool_decide_eq_true in E2. by subst. }
    by rewrite E1, E2.
  - do 4 eexists. split; [by vm_compute|]. split; [by vm_compute|].
    by vm_compute.
Qed.

(** C2: with a table that has an entry for ["42"], the exclusion pattern
    does not match the payload ["42"], whose digits are word characters,
    and the Forward walk replaces the payload by the table entry; the
    Reverse walk then rewrites it again. *)
Theorem digits_only_payload_is_rewritten :
  let root := paragraph (lit "42") in
  let w0 := mounted None None (Some root) in
  let w1 := @toggle numerals host w0 in
  symbols_only (trim (lit "42")) = false
  /\ mainContent w1 = Some (paragraph [1636; 1634]%N)
  /\ mainContent w1 <> mainContent w0
  /\ mainContent (@toggle numerals host w1) = Some (paragraph (lit "42")).
Proof. by vm_compute. Qed.

(** Two toggles of a mounted provider over a document whose [lang] is
    [fr]. *)
Lemma toggle_writes_fixed_attributes_witness :
  let element := paragraph (lit "  Hello world  ") in
  let w := mounted None (Some (lit "fr")) (Some element) in
  (mainContent w = Some element
   /\ st_isTranslating w = false /\ st_isTranslated w = false)
  /\ let w1 := @toggle greeting host w in
     let w2 := @toggle greeting host w1 in
     (st_isTranslated w1 = true
      /\ html_dir w1 = Some (lit "rtl") /\ html_lang w1 = Some (lit "ar"))
     /\ (st_isTranslated w2 = false
         /\ html_dir w2 = Some (lit "ltr") /\ html_lang w2 = Some (lit "en")).
Proof.
  split; [repeat split|].
  apply (@toggle_writes_fixed_attributes greeting host
           (mounted None (Some (lit "fr"))
              (Some (paragraph (lit "  Hello world  "))))
           (paragraph (lit "  Hello world  "))); reflexivity.
Defined.

(** C3, as stated, fails: a document without [dir] and with [lang] set to
    ["fr"] comes back from two toggles, both of which complete, with [dir]
    set to ["ltr"] and [lang] set to ["en"]. *)
Lemma original_attributes_are_not_restored :
  let w0 :=
    mounted None (Some (lit "fr"))
      (Some (paragraph (lit "  Hello world  "))) in
  let w1 := @toggle greeting host w0 in
  let w2 := @toggle greeting host w1 in
  (st_isTranslated w1 = true /\ console w1 = []
   /\ html_dir w1 = Some (lit "rtl") /\ html_lang w1 = Some (lit "ar"))
  /\ (st_isTranslated w2 = false /\ console w2 = []
      /\ mainContent w2 = mainContent w0)
  /\ html_dir w2 <> html_dir w0
  /\ html_lang w2 <> html_lang w0.
Proof. by vm_compute. Qed.

(** The SCRIPT element of the sample page. *)
Lemma skipped_subtree_is_untouched_witness :
  let w := mounted None None (Some page) in
  let script := Element (lit "SCRIPT") [Text (lit "Hello world")] in
  (subtree_at [2] page = Some script
   /\ (lit "SCRIPT" = lit "SCRIPT" \/ lit "SCRIPT" = lit "STYLE"
       \/ lit "SCRIPT" = lit "NOSCRIPT"))
  /\ (walk_with greeting script false w = (Normal script, w)
      /\ exists root' w',
           walk_with greeting page false w = (Normal root', w')
           /\ subtree_at [2] root' = Some script).
Proof.
  split; [split; [reflexivity | left; reflexivity]|].
  apply (@skipped_subtree_is_untouched greeting host page [2]
           (lit "SCRIPT") [Text (lit "Hello world")] false
           (mounted None None (Some page)));
    [reflexivity | left; reflexivity].
Defined.

(** The padded greeting at the top of the sample page. *)
Lemma candidate_is_wrapped_in_original_space_witness :
  let w := mounted None None (Some page) in
  let textContent := lit "  Hello world  " in
  (subtree_at [] page = Some page
   /\ reached [] page = true
   /\ skipped (lit "MAIN") = false
   /\ subtree_at [0] page = Some (Text textContent)
   /\ trim textContent <> []
   /\ symbols_only (trim textContent) = false
   /\ @candidate_of greeting false (trim textContent) = Normal marhaban)
  /\ exists root' w',
       walk_with greeting page false w = (Normal root', w')
       /\ subtree_at [0] root'
          = Some (Text (lit "  " ++ marhaban ++ lit "  ")).
Proof.
  split; [by vm_compute|].
  apply (@candidate_is_wrapped_in_original_space greeting host page []
           (lit "MAIN")
           [ Text (lit "  Hello world  ");
             Comment (lit "note");
             Element (lit "SCRIPT") [Text (lit "Hello world")];
             Element (lit "P") [Text (lit "boom"); Text (lit " ?! ")];
             Element (lit "DIV")
               [Element (lit "STYLE") [Text (lit "Hello world")];
                Text (lit "Hello world")] ]
           0 (lit "  Hello world  ") marhaban false
           (mounted None None (Some page))); by vm_compute.
Defined.

(** A world whose in-flight flag is set. *)
Lemma toggle_in_flight_is_inert_witness :
  let w := World false true ∅ None None (Some page) [] 0 in
  st_isTranslating w = true
  /\ translate (@TranslationProvider.value greeting host w) w = (Normal tt, w)
  /\ @toggle greeting host w = w.
Proof.
  split; [reflexivity|].
  apply (@toggle_in_flight_is_inert greeting host
           (World false true ∅ None None (Some page) [] 0)).
  reflexivity.
Defined.

(** C6: the guard of line 79 tests the flag that the render saw, not the
    flag in the state, so it does not stop a second call of the same
    [translate].  A render that saw the holder idle creates [translate];
    its first call sets the flag and walks a content root without element
    children, then waits at the [await] of line 97.  A second call of the
    same [translate], made while the flag is set, does not return at once:
    it walks the root again (the table that exchanges the two greetings
    rewrites the payload back), writes the attributes and sets the mode. *)
Theorem second_call_of_same_render_walks_again :
  let root := Element (lit "MAIN") [Text (lit "  Hello world  ")] in
  let w := mounted None None (Some root) in
  let context := @TranslationProvider.value swapping host w in
  let w1 :=
    exec (setIsTranslating true ;;
          @TranslationProvider.walk_mainContent swapping host false) w in
  let w2 := exec (translate context) w1 in
  isTranslating context = false
  /\ (st_isTranslating w1 = true
      /\ mainContent w1
         = Some (Element (lit "MAIN")
                   [Text (lit "  " ++ marhaban ++ lit "  ")]))
  /\ (w2 <> w1
      /\ mainContent w2 = Some root
      /\ html_dir w2 = Some (lit "rtl") /\ html_lang w2 = Some (lit "ar")
      /\ st_isTranslated w2 = true).
Proof. by vm_compute. Qed.

(** The faulty table throws on the first text of the paragraph; that
    text is kept and the greeting further on is still translated. *)
Lemma fragment_failure_is_contained_witness :
  let w := mounted None None (Some page) in
  (subtree_at [3; 0] page = Some (Text (lit "boom"))
   /\ @candidate_of faulty false (trim (lit "boom"))
      = Throw (Error (lit "no entry")))
  /\ exists root' w',
       walk_with faulty page false w = (Normal root', w')
       /\ subtree_at [3; 0] root' = Some (Text (lit "boom"))
       /\ subtree_at [4; 1] root' = Some (Text marhaban).
Proof.
  split; [by vm_compute|].
  destruct (@fragment_failure_is_contained faulty host page false
              (mounted None None (Some page)))
    as (root' & w' & Hwalk & Hrecovered & Hkept).
  exists root', w'. split; [exact Hwalk|]. split.
  - apply (Hkept [3; 0] (lit "boom") (Error (lit "no entry")));
      reflexivity.
  - revert Hrecovered. vm_compute. intros [= <-]. reflexivity.
Defined.

(** A document without content root. *)
Lemma failed_walk_clears_flag_keeps_mode_witness :
  let w := mounted None (Some (lit "fr")) None in
  let r := @TranslationProvider.translate greeting host false false w in
  mainContent w = None
  /\ (fst r = Normal tt /\ st_isTranslating (snd r) = false)
  /\ st_isTranslated (snd r) = false
  /\ html_dir (snd r) = None
  /\ html_lang (snd r) = Some (lit "fr").
Proof.
  split; [reflexivity|].
  destruct (@failed_walk_clears_flag_keeps_mode greeting host false
              (mounted None (Some (lit "fr")) None))
    as [Hcleared Hkept].
  split; [exact Hcleared|].
  destruct (Hkept eq_refl) as (Hmode & Hdir & Hlang & _).
  split; [exact Hmode|]. split; [exact Hdir | exact Hlang].
Defined.

(** The sample page before and after a first toggle. *)
Lemma reset_is_toggle_when_translated_witness :
  let w0 := mounted None None (Some page) in
  let w1 := @toggle greeting host w0 in
  (st_isTranslated w0 = false /\ @reset greeting host w0 = w0)
  /\ (st_isTranslated w1 = true
      /\ @reset greeting host w1 = @toggle greeting host w1).
Proof.
  split.
  - split; [reflexivity|].
    apply (@reset_is_toggle_when_translated greeting host
             (mounted None None (Some page))). reflexivity.
  - split; [by vm_compute|].
    apply (@reset_is_toggle_when_translated greeting host
             (@toggle greeting host (mounted None None (Some page)))).
    by vm_compute.
Defined.

(** A consumer directly under one provider. *)
Lemma useTranslation_outside_provider_throws_witness :
  let context :=
    @TranslationProvider.value greeting host
      (mounted None None (Some page)) in
  useTranslation [context] = Normal context
  /\ exists outer, [context] = context :: outer.
Proof.
  split; [reflexivity|].
  apply (proj2 useTranslation_outside_provider_throws
           [@TranslationProvider.value greeting host
              (mounted None None (Some page))]
           (@TranslationProvider.value greeting host
              (mounted None None (Some page)))).
  reflexivity.
Defined.

End OnSamples.

(** * Further properties *)

(** ** The effects of the walk *)

Section Effects.
Context {T : Translations} {host : Host}.
Variable isReverse : bool.
Variable R : world -> world -> Prop.
Hypothesis R_refl : forall w, R w w.
Hypothesis R_trans : forall w1 w2 w3, R w1 w2 -> R w2 w3 -> R w1 w3.
Hypothesis R_rewrite : forall t c w,
  fragment t -> symbols_only t = false ->
  candidate_of isReverse t = Normal c -> c <> t ->
  R w (rewrite_effect isReverse t w).
Hypothesis R_failure : forall t e w,
  fragment t -> symbols_only t = false ->
  candidate_of isReverse t = Throw e ->
  R w (failure_effect t e w).

Lemma translateTextNode_related textContent w :
  truthy (trim textContent) = true ->
  exists w',
    TranslationProvider.translateTextNode isReverse textContent w
    = (Normal (payload_after isReverse textContent), w')
    /\ R w w'.
Proof.
  intros Ht. pose proof (proj1 (truthy_not_nil _) Ht) as Hne.
  pose proof (trim_fragment _ Hne) as Hfrag.
  unfold TranslationProvider.translateTextNode, payload_after.
  rewrite (truthy_length _ Ht), Ht. simpl.
  destruct (symbols_only (trim textContent)) eqn:Hsym; simpl;
    [by eexists|].
  pose proof (R_rewrite (trim textContent)) as Hrw.
  pose proof (R_failure (trim textContent)) as Hfl.
  unfold try_catch, bind, call, strict_neq.
  unfold candidate_of in *.
  destruct isReverse; simpl.
  - destruct (reverseTranslateText (trim textContent)) as [c|e].
    + destruct (bool_decide (c = trim textContent)) eqn:Hd; simpl;
        [by eexists|].
      apply bool_decide_eq_false in Hd.
      eexists. split; [reflexivity|]. by apply (Hrw c).
    + eexists. split; [reflexivity|]. by apply (Hfl e).
  - destruct (translateText (trim textContent)) as [c|e].
    + destruct (bool_decide (c = trim textContent)) eqn:Hd; simpl;
        [by eexists|].
      apply bool_decide_eq_false in Hd.
      eexists. split; [reflexivity|]. by apply (Hrw c).
    + eexists. split; [reflexivity|]. by apply (Hfl e).
Qed.

Lemma processChildNode_related n w :
  exists w',
    TranslationProvider.processChildNode isReverse n w
    = (Normal (first_loop (payload_after isReverse) n), w')
    /\ R w w'.
Proof.
  destruct n as [textContent| |]; simpl; try by eexists.
  destruct (truthy (trim textContent)) eqn:Ht.
  - destruct (translateTextNode_related textContent w Ht) as (w' & Hw & HR).
    rewrite (bind_normal _ _ _ _ _ Hw). by eexists.
  - rewrite payload_after_blank by done. by eexists.
Qed.

Lemma first_loop_related l w :
  exists w',
    TranslationProvider.for_each
      (TranslationProvider.processChildNode isReverse) l w
    = (Normal (List.map (first_loop (payload_after isReverse)) l), w')
    /\ R w w'.
Proof.
  revert w. induction l as [|n l IH]; intros w; simpl; [by eexists|].
  destruct (processChildNode_related n w) as (w1 & H1 & HR1).
  destruct (IH w1) as (w2 & H2 & HR2).
  rewrite (bind_normal _ _ _ _ _ H1), (bind_normal _ _ _ _ _ H2).
  eexists. split; [reflexivity|]. by eapply R_trans.
Qed.

(** The world after a walk is related to the world before it by every
    reflexive and transitive relation that the two effects of a text node
    respect. *)
Lemma walk_related n w :
  exists w',
    TranslationProvider.translateElementsRecursively n isReverse w
    = (Normal (walked isReverse n), w')
    /\ R w w'.
Proof.
  revert w.
  induction n as [textContent|tagName childNodes IH|data] using node_induction;
    intros w; simpl; try by eexists.
  fold (skipped tagName). destruct (skipped tagName); [by eexists|].
  destruct (first_loop_related childNodes w) as (w1 & H1 & HR1).
  rewrite (bind_normal _ _ _ _ _ H1). clear H1.
  match goal with
  | |- context [bind (?loop childNodes ?cur) _] =>
      assert (exists w2,
        loop childNodes cur w1
        = (Normal (List.map (rewritten (payload_after isReverse)) childNodes),
           w2) /\ R w1 w2) as (w2 & H2 & HR2)
  end.
  { clear HR1. revert w1.
    induction IH as [|c l Hc _ IHl]; intros w1; [by eexists|].
    simpl. destruct c as [textContent|tag kids|data].
    - destruct (IHl w1) as (w2 & H2 & HR2).
      unfold bind at 1. unfold ret at 1.
      rewrite (bind_normal _ _ _ _ _ H2). by eexists.
    - destruct (Hc w1) as (w2 & H2 & HR2).
      rewrite (bind_normal _ _ _ _ _ H2).
      destruct (IHl w2) as (w3 & H3 & HR3).
      rewrite (bind_normal _ _ _ _ _ H3).
      eexists. split; [reflexivity|]. by eapply R_trans.
    - destruct (IHl w1) as (w2 & H2 & HR2).
      unfold bind at 1. unfold ret at 1.
      rewrite (bind_normal _ _ _ _ _ H2). by eexists. }
  rewrite (bind_normal _ _ _ _ _ H2).
  eexists. split; [reflexivity|]. by eapply R_trans.
Qed.

End Effects.

(** ** Trees before and after a walk *)

Lemma shape_rewritten f n : shape (rewritten f n) = shape n.
Proof.
  induction n as [p|tagName childNodes IH|data] using node_induction;
    simpl; try done.
  destruct (skipped tagName); [done|]. simpl. f_equal.
  induction IH as [|c l Hc _ IHl]; simpl; congruence.
Qed.

Lemma shape_walked {T : Translations} isReverse n :
  shape (walked isReverse n) = shape n.
Proof. destruct n; try done. apply shape_rewritten. Qed.

Lemma rewritten_compose f g n :
  rewritten g (rewritten f n) = rewritten (fun p => g (f p)) n.
Proof.
  induction n as [p|tagName childNodes IH|data] using node_induction;
    simpl; try done.
  destruct (skipped tagName) eqn:Hs; simpl; rewrite Hs; [done|]. f_equal.
  induction IH as [|c l Hc _ IHl]; simpl; congruence.
Qed.

Lemma rewritten_id f n : (forall p, f p = p) -> rewritten f n = n.
Proof.
  intros Hf.
  induction n as [p|tagName childNodes IH|data] using node_induction;
    simpl; try done.
  - by rewrite Hf.
  - destruct (skipped tagName); [done|]. f_equal.
    induction IH as [|c l Hc _ IHl]; simpl; congruence.
Qed.

(** Rewriting with a function that fixes the payload of every text node
    reached in the tree gives the tree back. *)
Lemma rewritten_id_reached f n :
  (forall path p,
     subtree_at path n = Some (Text p) -> reached path n = true ->
     f p = p) ->
  rewritten f n = n.
Proof.
  induction n as [q|tagName childNodes IH|data] using node_induction;
    intros Hf; simpl; try done.
  - by rewrite (Hf [] q).
  - destruct (skipped tagName) eqn:Hskip; [done|]. f_equal.
    assert (forall i c, childNodes !! i = Some c -> rewritten f c = c) as Hc.
    { intros i c Hi.
      apply (proj1 (Forall_lookup _ _) IH i c Hi).
      intros path p Hs Hr. apply (Hf (i :: path) p); simpl.
      - by rewrite Hi.
      - by rewrite Hskip, Hi. }
    clear IH Hf. induction childNodes as [|c l IHl]; [done|]. simpl.
    rewrite (Hc 0 c) by done. f_equal. apply IHl.
    intros i c' Hi. by apply (Hc (S i)).
Qed.

Lemma walked_twice {T : Translations} r1 r2 n :
  walked r2 (walked r1 n)
  = match n with
    | Element _ _ =>
        rewritten (fun p => payload_after r2 (payload_after r1 p)) n
    | _ => n
    end.
Proof.
  destruct n as [p|tagName childNodes|d]; try done.
  destruct (walked_element r1 tagName childNodes) as [kids Hk].
  rewrite Hk. unfold walked at 1. rewrite <- Hk. unfold walked.
  apply rewritten_compose.
Qed.

Section Unchanged.
Context {T : Translations}.

(** A payload that the first loop leaves as it is either was not looked
    up, or the lookup returned it, or the lookup threw. *)
Lemma payload_after_unchanged isReverse textContent :
  payload_after isReverse textContent = textContent ->
  truthy (trim textContent) = true ->
  symbols_only (trim textContent) = false ->
  candidate_of isReverse (trim textContent) = Normal (trim textContent)
  \/ exists e, candidate_of isReverse (trim textContent) = Throw e.
Proof.
  intros Hsame Ht Hsym. unfold payload_after in Hsame.
  rewrite Ht, Hsym in Hsame. simpl in Hsame.
  destruct (candidate_of isReverse (trim textContent)) as [c|e];
    [|right; by eexists].
  left. destruct (bool_decide (c = trim textContent)) eqn:Hd.
  { apply bool_decide_eq_true in Hd. by subst. }
  apply truthy_not_nil in Ht.
  rewrite <- (payload_split _ Ht) in Hsame at 3.
  apply app_inv_head, app_inv_tail in Hsame. by subst.
Qed.

Lemma payload_after_same isReverse textContent :
  (forall t, fragment t -> symbols_only t = false ->
     candidate_of isReverse t = Normal t
     \/ exists e, candidate_of isReverse t = Throw e) ->
  payload_after isReverse textContent = textContent.
Proof.
  intros Hsame. unfold payload_after.
  destruct (truthy (trim textContent)) eqn:Ht; [|done].
  destruct (symbols_only (trim textContent)) eqn:Hsym; [done|]. simpl.
  apply truthy_not_nil, trim_fragment in Ht.
  destruct (Hsame _ Ht Hsym) as [-> | [e ->]]; [|done].
  by rewrite bool_decide_eq_true_2.
Qed.

End Unchanged.

(** ** More on the tree walker *)

Section WalkerExtras.
Context {T : Translations} {host : Host}.

#[local] Abbreviation walk := TranslationProvider.translateElementsRecursively.

(** X1: the walk returns a tree with the same nodes in the same order, the
    same tags and the same comments: only text payloads can differ. *)
Theorem walk_keeps_shape (root : node) (isReverse : bool) (w : world) :
  exists root' w',
    walk root isReverse w = (Normal root', w')
    /\ shape root' = shape root.
Proof.
  destruct (walk_returns root isReverse w) as [w' Hw].
  exists (walked isReverse root), w'. split; [done|]. apply shape_walked.
Qed.

(** X2: the walk writes neither the mode, nor the in-flight flag, nor the
    two attributes of the root, nor the reference to the content root; it
    only reads the clock further, appends to the console and, in the
    Forward direction, adds keys to the recorded texts.  A Reverse walk
    leaves the recorded texts as they are. *)
Theorem walk_writes_only_its_own_state
    (root : node) (isReverse : bool) (w : world) :
  exists root' w',
    walk root isReverse w = (Normal root', w')
    /\ st_isTranslated w' = st_isTranslated w
    /\ st_isTranslating w' = st_isTranslating w
    /\ html_dir w' = html_dir w
    /\ html_lang w' = html_lang w
    /\ mainContent w' = mainContent w
    /\ drawn w <= drawn w'
    /\ (exists entries, console w' = console w ++ entries)
    /\ dom (st_originalTexts w) ⊆ dom (st_originalTexts w')
    /\ (isReverse = true -> st_originalTexts w' = st_originalTexts w).
Proof.
  destruct (walk_related isReverse
    (fun w w' =>
       st_isTranslated w' = st_isTranslated w
       /\ st_isTranslating w' = st_isTranslating w
       /\ html_dir w' = html_dir w
       /\ html_lang w' = html_lang w
       /\ mainContent w' = mainContent w
       /\ drawn w <= drawn w'
       /\ (exists entries, console w' = console w ++ entries)
       /\ dom (st_originalTexts w) ⊆ dom (st_originalTexts w')
       /\ (isReverse = true -> st_originalTexts w' = st_originalTexts w)))
    with (n := root) (w := w) as (w' & Hw & HR).
  - intros w0. repeat split; try done. exists []. by rewrite app_nil_r.
  - intros w1 w2 w3 (A1 & A2 & A3 & A4 & A5 & A6 & [e1 A7] & A8 & A9)
      (B1 & B2 & B3 & B4 & B5 & B6 & [e2 B7] & B8 & B9).
    repeat split; try congruence; try lia.
    + exists (e1 ++ e2). by rewrite B7, A7, app_assoc.
    + set_solver.
    + intros Hrev. by rewrite B9, A9.
  - intros t c w0 _ _ _ _. unfold rewrite_effect. simpl.
    repeat split; try done; try lia.
    + exists []. by rewrite app_nil_r.
    + destruct isReverse; [done|]. rewrite dom_insert. set_solver.
    + by intros ->.
  - intros t e w0 _ _ _. unfold failure_effect. simpl.
    repeat split; try done. by eexists.
  - by exists (walked isReverse root), w'.
Qed.

(** X3: when no lookup of the chosen direction throws, the walk logs
    nothing. *)
Theorem walk_without_throw_logs_nothing
    (root : node) (isReverse : bool) (w : world) :
  (forall t e, candidate_of isReverse t <> Throw e) ->
  exists root' w',
    walk root isReverse w = (Normal root', w')
    /\ console w' = console w.
Proof.
  intros Hquiet.
  destruct (walk_related isReverse (fun w w' => console w' = console w))
    with (n := root) (w := w) as (w' & Hw & HR).
  - done.
  - intros w1 w2 w3. congruence.
  - done.
  - intros t e w0 _ _ He. by destruct (Hquiet t e).
  - by exists (walked isReverse root), w'.
Qed.

(** X4: when the lookup of the chosen direction returns its argument for
    every fragment that the exclusion pattern does not match, the walk
    changes nothing: the tree, the recorded texts, the console and the
    clock are what they were. *)
Theorem walk_without_entry_is_noop
    (root : node) (isReverse : bool) (w : world) :
  (forall t, fragment t -> symbols_only t = false ->
     candidate_of isReverse t = Normal t) ->
  walk root isReverse w = (Normal root, w).
Proof.
  intros Hid.
  destruct (walk_related isReverse (fun w w' => w' = w))
    with (n := root) (w := w) as (w' & Hw & ->).
  - done.
  - intros w1 w2 w3. congruence.
  - intros t c w0 Hf Hs Hc Hne. rewrite (Hid t Hf Hs) in Hc. congruence.
  - intros t e w0 Hf Hs He. rewrite (Hid t Hf Hs) in He. congruence.
  - rewrite Hw. f_equal. f_equal. destruct root; try done.
    apply rewritten_id. intros p. apply payload_after_same.
    intros t Hf Hs. left. by apply Hid.
Qed.

(** X5: a second Forward walk changes no payload when every candidate of
    the first one is a fragment that the exclusion pattern matches, or
    that the forward lookup returns as it is, or on which it throws. *)
Theorem second_forward_walk_keeps_tree (root : node) (w : world) :
  (forall t c, fragment t -> symbols_only t = false ->
     translateText t = Normal c -> c <> t ->
     fragment c
     /\ (symbols_only c = true \/ translateText c = Normal c
         \/ exists e, translateText c = Throw e)) ->
  exists root1 w1 w2,
    walk root false w = (Normal root1, w1)
    /\ walk root1 false w1 = (Normal root1, w2).
Proof.
  intros Hstable.
  destruct (walk_returns root false w) as [w1 H1].
  destruct (walk_returns (walked false root) false w1) as [w2 H2].
  exists (walked false root), w1, w2. split; [done|].
  rewrite H2. f_equal. f_equal. rewrite walked_twice.
  destruct root as [p|tagName childNodes|d]; try done.
  unfold walked. apply rewritten_ext. intros p.
  destruct (bool_decide (payload_after false p = p)) eqn:Hd.
  { apply bool_decide_eq_true in Hd. by rewrite Hd. }
  apply bool_decide_eq_false in Hd. revert Hd.
  unfold payload_after at 1 3 4.
  destruct (truthy (trim p)) eqn:Ht; [|done].
  destruct (symbols_only (trim p)) eqn:Hs; [done|]. simpl.
  destruct (translateText (trim p)) as [c|e] eqn:Hc; [|done].
  destruct (bool_decide (c = trim p)) eqn:Hcd; [done|]. intros _.
  apply bool_decide_eq_false in Hcd.
  apply truthy_not_nil, trim_fragment in Ht.
  destruct (Hstable _ _ Ht Hs Hc Hcd) as [Hfc Hcases].
  destruct (payload_join (match_leading_space p) c (match_trailing_space p))
    as (Hl & Hm & Hr);
    auto using leading_space_is_space, trailing_space_is_space.
  unfold payload_after. rewrite Hm. simpl.
  destruct (truthy c && negb (symbols_only c)) eqn:Hlook; [|done].
  apply andb_true_iff in Hlook as [_ Hns%negb_true_iff].
  destruct Hcases as [Hsym|[Hsame|[e Hthrow]]].
  - congruence.
  - rewrite Hsame. by rewrite bool_decide_eq_true_2.
  - by rewrite Hthrow.
Qed.

(** X6: a text node whose trimmed payload is empty, or has only code
    units outside the word class, the white space class and the range
    U+0600 to U+06FF, keeps its payload in both directions, whatever the
    tables hold. *)
Theorem blank_or_symbol_payload_is_kept
    (root : node) (path : list nat) (textContent : jsstring)
    (isReverse : bool) (w : world) :
  subtree_at path root = Some (Text textContent) ->
  trim textContent = [] \/ symbols_only (trim textContent) = true ->
  exists root' w',
    walk root isReverse w = (Normal root', w')
    /\ subtree_at path root' = Some (Text textContent).
Proof.
  intros Hs Hskip. apply symbols_only_payload_is_kept; [done|].
  destruct Hskip as [-> | Hsym]; done.
Qed.

(** X7: when every candidate that differs from its fragment is itself a
    fragment, the walk leaves the leading and the trailing white space of
    every text node as they were. *)
Theorem walk_keeps_surrounding_space
    (root : node) (path : list nat) (textContent : jsstring)
    (isReverse : bool) (w : world) :
  (forall t c, fragment t -> symbols_only t = false ->
     candidate_of isReverse t = Normal c -> c <> t -> fragment c) ->
  subtree_at path root = Some (Text textContent) ->
  exists root' w' textContent',
    walk root isReverse w = (Normal root', w')
    /\ subtree_at path root' = Some (Text textContent')
    /\ match_leading_space textContent' = match_leading_space textContent
    /\ match_trailing_space textContent' = match_trailing_space textContent.
Proof.
  intros Hfrag Hs. destruct (walk_returns root isReverse w) as [w' Hw].
  exists (walked isReverse root), w'.
  rewrite (text_after_walk _ _ _ _ Hs).
  destruct (reached path root && _);
    [|by exists textContent].
  exists (payload_after isReverse textContent).
  split; [done|]. split; [done|]. unfold payload_after.
  destruct (truthy (trim textContent)) eqn:Ht; [|done].
  destruct (symbols_only (trim textContent)) eqn:Hsym; [done|]. simpl.
  destruct (candidate_of isReverse (trim textContent)) as [c|e] eqn:Hc;
    [|done].
  destruct (bool_decide (c = trim textContent)) eqn:Hd; [done|].
  apply bool_decide_eq_false in Hd.
  apply truthy_not_nil, trim_fragment in Ht.
  destruct (payload_join (match_leading_space textContent) c
              (match_trailing_space textContent)) as (Hl & _ & Hr);
    eauto using leading_space_is_space, trailing_space_is_space.
Qed.

End WalkerExtras.

(** X8: the tree that the walk returns depends neither on the clock and
    the random source nor on the world in which the walk starts. *)
Theorem walk_tree_is_independent_of_host_and_world
    {T : Translations} (host1 host2 : Host) (root : node) (isReverse : bool)
    (w1 w2 : world) :
  fst (@TranslationProvider.translateElementsRecursively T host1
         root isReverse w1)
  = fst (@TranslationProvider.translateElementsRecursively T host2
           root isReverse w2).
Proof.
  destruct (@walk_returns T host1 root isReverse w1) as [w1' ->].
  destruct (@walk_returns T host2 root isReverse w2) as [w2' ->].
  done.
Qed.

(** ** More on the state holder *)

Section HolderExtras.
Context {T : Translations} {host : Host}.

(** The three ways a toggle can go. *)
Lemma toggle_cases (w : world) :
  (st_isTranslating w = true /\ toggle w = w)
  \/ (st_isTranslating w = false /\ mainContent w = None
      /\ toggle w
         = World (st_isTranslated w) false (st_originalTexts w) (html_dir w)
             (html_lang w) None
             (console w
              ++ [TranslationFailed
                    (TypeError (lit "Cannot read properties of null"))])
             (drawn w))
  \/ (st_isTranslating w = false
      /\ exists element w',
           mainContent w = Some element
           /\ toggle w
              = World (negb (st_isTranslated w)) false
                  (if st_isTranslated w then ∅ else st_originalTexts w')
                  (Some (if st_isTranslated w then lit "ltr" else lit "rtl"))
                  (Some (if st_isTranslated w then lit "en" else lit "ar"))
                  (Some (walked (st_isTranslated w) element))
                  (console w') (drawn w')).
Proof.
  unfold toggle, exec. simpl.
  destruct (st_isTranslating w) eqn:Hflight; [by left|]. right.
  destruct (mainContent w) as [element|] eqn:Hmain.
  - right. split; [done|].
    destruct (translate_completes (st_isTranslated w) w element Hmain)
      as [w' Hw].
    exists element, w'. by rewrite Hw.
  - left. by rewrite (translate_fails (st_isTranslated w) w Hmain).
Qed.

Lemma reset_cases (w : world) :
  (st_isTranslated w = false /\ reset w = w)
  \/ (st_isTranslated w = true /\ reset w = toggle w).
Proof.
  unfold reset, toggle, exec. simpl.
  unfold TranslationProvider.resetTranslation.
  destruct (st_isTranslated w); [by right | by left].
Qed.

Lemma settled_toggle dir0 lang0 w :
  settled dir0 lang0 w -> settled dir0 lang0 (toggle w).
Proof.
  intros (Hflight & Hrtl & Hltr).
  destruct (toggle_cases w)
    as [[_ ->] | [(_ & Hmain & ->) | (_ & element & w' & Hmain & ->)]].
  - done.
  - repeat split; simpl; auto.
    + by apply Hrtl.
    + by apply Hrtl.
    + by apply Hltr.
    + by apply Hltr.
  - unfold settled. simpl. destruct (st_isTranslated w); simpl.
    + split; [done|]. split; [done|]. intros _. split; [done|]. by right.
    + split; [done|]. split; [done|]. done.
Qed.

Lemma settled_perform dir0 lang0 a w :
  settled dir0 lang0 w -> settled dir0 lang0 (perform a w).
Proof.
  intros Hw. destruct a; simpl; [by apply settled_toggle|].
  destruct (reset_cases w) as [[_ ->] | [_ ->]];
    [done | by apply settled_toggle].
Qed.

Lemma toggle_shape w :
  option_map shape (mainContent (toggle w))
  = option_map shape (mainContent w).
Proof.
  destruct (toggle_cases w)
    as [[_ ->] | [(_ & Hmain & ->) | (_ & element & w' & Hmain & ->)]].
  - done.
  - by rewrite Hmain.
  - rewrite Hmain. simpl. by rewrite shape_walked.
Qed.

Lemma perform_shape a w :
  option_map shape (mainContent (perform a w))
  = option_map shape (mainContent w).
Proof.
  destruct a; simpl; [apply toggle_shape|].
  destruct (reset_cases w) as [[_ ->] | [_ ->]]; [done | apply toggle_shape].
Qed.

(** X9: when the reverse lookup maps every forward candidate back, every
    forward candidate can be looked up again, and the reverse lookup
    leaves alone the fragments of the text nodes reached in the content
    root that the forward lookup leaves alone, two toggles give the
    document back node for node and leave the holder in mode ORIGINAL,
    idle, with nothing recorded. *)
Theorem two_toggles_restore_document (w : world) (root : node) :
  (forall t c, fragment t -> symbols_only t = false ->
     translateText t = Normal c -> c <> t ->
     reverseTranslateText c = Normal t) ->
  (forall t c, fragment t -> symbols_only t = false ->
     translateText t = Normal c -> c <> t ->
     fragment c /\ symbols_only c = false) ->
  (forall path textContent,
     subtree_at path root = Some (Text textContent) ->
     reached path root = true ->
     trim textContent <> [] ->
     symbols_only (trim textContent) = false ->
     (translateText (trim textContent) = Normal (trim textContent)
      \/ exists e, translateText (trim textContent) = Throw e) ->
     (reverseTranslateText (trim textContent) = Normal (trim textContent)
      \/ exists e, reverseTranslateText (trim textContent) = Throw e)) ->
  mainContent w = Some root ->
  st_isTranslating w = false ->
  st_isTranslated w = false ->
  let w2 := toggle (toggle w) in
  mainContent w2 = Some root
  /\ st_isTranslated w2 = false
  /\ st_isTranslating w2 = false
  /\ st_originalTexts w2 = ∅.
Proof.
  intros Hinverse Hcandidate Halone Hmain Hflight Hmode w2.
  destruct (toggle_cases w)
    as [[E _] | [(_ & E & _) | (_ & element & w' & Hmain' & H1)]];
    try congruence.
  rewrite Hmain in Hmain'. injection Hmain' as <-. rewrite Hmode in H1.
  destruct (toggle_cases (toggle w))
    as [[E _] | [(_ & E & _) | (_ & element2 & w'' & Hmain2 & H2)]].
  - by rewrite H1 in E.
  - by rewrite H1 in E.
  - unfold w2. rewrite H2. rewrite H1 in Hmain2 |- *. simpl in *.
    injection Hmain2 as <-. repeat split. f_equal.
    rewrite walked_twice. destruct root as [q|tagName childNodes|d]; try done.
    apply rewritten_id_reached. intros path p Hpath Hreached.
    destruct (bool_decide (payload_after false p = p)) eqn:Hd.
    + apply bool_decide_eq_true in Hd. rewrite Hd.
      destruct (truthy (trim p)) eqn:Ht;
        [|by apply payload_after_blank].
      destruct (symbols_only (trim p)) eqn:Hs;
        [by apply payload_after_symbols|].
      pose proof (payload_after_unchanged false p Hd Ht Hs) as Hfw.
      apply truthy_not_nil in Ht as Hne.
      unfold payload_after. rewrite Ht, Hs. simpl.
      destruct (Halone path p Hpath Hreached Hne Hs Hfw) as [-> | [e ->]];
        [|done].
      by rewrite bool_decide_eq_true_2.
    + apply bool_decide_eq_false in Hd. by apply payload_roundtrip.
Qed.

(** X10: whatever toggles and resets are requested after a mount, the
    holder ends idle; in mode TRANSLATED the root is marked ["rtl"] and
    ["ar"]; in mode ORIGINAL nothing is recorded and the root carries
    either the attributes it had at the mount or ["ltr"] and ["en"]. *)
Theorem requests_leave_holder_settled
    (actions : list action) (dir0 lang0 : option jsstring)
    (content : option node) (entries : list log_entry) (readings : nat) :
  settled dir0 lang0
    (perform_all actions (mount dir0 lang0 content entries readings)).
Proof.
  unfold perform_all.
  assert (settled dir0 lang0 (mount dir0 lang0 content entries readings))
    as Hmount.
  { repeat split; try done. by left. }
  revert Hmount. generalize (mount dir0 lang0 content entries readings).
  induction actions as [|a actions IH]; intros w Hw; simpl; [done|].
  apply IH. by apply settled_perform.
Qed.

(** X11: no series of toggles and resets adds, removes or reorders a node
    of the content root, changes a tag or a comment, or makes the content
    root appear or disappear. *)
Theorem requests_keep_shape (actions : list action) (w : world) :
  option_map shape (mainContent (perform_all actions w))
  = option_map shape (mainContent w).
Proof.
  unfold perform_all. revert w.
  induction actions as [|a actions IH]; intros w; simpl; [done|].
  rewrite IH. apply perform_shape.
Qed.

(** X12: on a document with a content root and with no toggle in flight,
    a reset leaves the holder in mode ORIGINAL, and a second reset of the
    next render changes nothing more. *)
Theorem reset_reaches_original_once (w : world) (root : node) :
  mainContent w = Some root ->
  st_isTranslating w = false ->
  st_isTranslated (reset w) = false /\ reset (reset w) = reset w.
Proof.
  intros Hmain Hflight.
  assert (st_isTranslated (reset w) = false) as Hmode.
  { destruct (reset_cases w) as [[Hm ->] | [Hm ->]]; [done|].
    destruct (toggle_cases w)
      as [[E _] | [(_ & E & _) | (_ & element & w' & _ & ->)]];
      try congruence.
    simpl. by rewrite Hm. }
  split; [done|].
  destruct (reset_cases (reset w)) as [[_ E] | [E _]]; congruence.
Qed.

End HolderExtras.

(** ** The further properties on sample documents *)

Section ExtrasOnSamples.
Import Samples.

#[local] Abbreviation walk_with T :=
  (@TranslationProvider.translateElementsRecursively T host).

(** Split a path into a sample tree into the child indices it can take. *)
Ltac follow_path Hs :=
  simpl in Hs;
  lazymatch type of Hs with
  | None = Some _ => discriminate Hs
  | Some _ = Some _ => idtac
  | context [_ !! ?i] => destruct i; follow_path Hs
  | context [subtree_at ?path _] => destruct path as [|? ?]; follow_path Hs
  end.

(** On the sample page no reached text node holds the Arabic greeting, so
    what the forward lookup leaves alone the reverse lookup leaves alone
    too. *)
Lemma greeting_alone_on_page path textContent :
  subtree_at path page = Some (Text textContent) ->
  reached path page = true ->
  trim textContent <> [] ->
  symbols_only (trim textContent) = false ->
  (@translateText greeting (trim textContent) = Normal (trim textContent)
   \/ exists e, @translateText greeting (trim textContent) = Throw e) ->
  (@reverseTranslateText greeting (trim textContent)
   = Normal (trim textContent)
   \/ exists e, @reverseTranslateText greeting (trim textContent) = Throw e).
Proof.
  intros Hs Hr _ _ Hfw. unfold page in Hs.
  follow_path Hs; try discriminate Hs; injection Hs as <-;
    first [ left; by vm_compute
          | destruct Hfw as [Hfw | [e Hfw]]; by vm_compute in Hfw ].
Qed.

Lemma greeting_never_throws isReverse t e :
  @candidate_of greeting isReverse t <> Throw e.
Proof. by destruct isReverse. Qed.

Lemma greeting_stable t c :
  fragment t -> symbols_only t = false ->
  @translateText greeting t = Normal c -> c <> t ->
  fragment c
  /\ (symbols_only c = true \/ @translateText greeting c = Normal c
      \/ exists e, @translateText greeting c = Throw e).
Proof.
  intros _ _ [= <-] Hne.
  destruct (bool_decide (t = hello)) eqn:E; [|done].
  split; [by vm_compute|]. right. left. by vm_compute.
Qed.

Lemma greeting_fragments t c :
  fragment t -> symbols_only t = false ->
  @candidate_of greeting false t = Normal c -> c <> t -> fragment c.
Proof.
  intros Hf Hs Hc Hne. by destruct (greeting_candidates t c Hf Hs Hc Hne).
Qed.

(** The greeting table on the sample page: two nodes are rewritten and
    nothing is logged. *)
Lemma walk_without_throw_logs_nothing_witness :
  let w := mounted None None (Some page) in
  (forall t e, @candidate_of greeting false t <> Throw e)
  /\ exists root' w',
       walk_with greeting page false w = (Normal root', w')
       /\ console w' = console w.
Proof.
  split; [exact (greeting_never_throws false)|].
  exact (@walk_without_throw_logs_nothing greeting host page false
           (mounted None None (Some page)) (greeting_never_throws false)).
Defined.

(** The reverse table of [faulty] has no entry at all. *)
Lemma walk_without_entry_is_noop_witness :
  let w := mounted None None (Some page) in
  (forall t, fragment t -> symbols_only t = false ->
     @candidate_of faulty true t = Normal t)
  /\ walk_with faulty page true w = (Normal page, w).
Proof.
  split; [reflexivity|].
  apply (@walk_without_entry_is_noop faulty host page true
           (mounted None None (Some page))).
  reflexivity.
Defined.

(** The greeting table has no entry for its own candidate. *)
Lemma second_forward_walk_keeps_tree_witness :
  let w := mounted None None (Some page) in
  exists root1 w1 w2,
    walk_with greeting page false w = (Normal root1, w1)
    /\ walk_with greeting root1 false w1 = (Normal root1, w2).
Proof.
  exact (@second_forward_walk_keeps_tree greeting host page
           (mounted None None (Some page)) greeting_stable).
Defined.

(** The punctuation of the sample page. *)
Lemma blank_or_symbol_payload_is_kept_witness :
  let w := mounted None None (Some page) in
  (subtree_at [3; 1] page = Some (Text (lit " ?! "))
   /\ (trim (lit " ?! ") = []
       \/ symbols_only (trim (lit " ?! ")) = true))
  /\ exists root' w',
       walk_with greeting page false w = (Normal root', w')
       /\ subtree_at [3; 1] root' = Some (Text (lit " ?! ")).
Proof.
  split; [split; [reflexivity | right; reflexivity]|].
  apply (@blank_or_symbol_payload_is_kept greeting host page [3; 1]
           (lit " ?! ") false (mounted None None (Some page)));
    [reflexivity | right; reflexivity].
Defined.

(** The padded greeting at the top of the sample page. *)
Lemma walk_keeps_surrounding_space_witness :
  let w := mounted None None (Some page) in
  subtree_at [0] page = Some (Text (lit "  Hello world  "))
  /\ exists root' w' textContent',
       walk_with greeting page false w = (Normal root', w')
       /\ subtree_at [0] root' = Some (Text textContent')
       /\ match_leading_space textContent'
          = match_leading_space (lit "  Hello world  ")
       /\ match_trailing_space textContent'
          = match_trailing_space (lit "  Hello world  ").
Proof.
  split; [reflexivity|].
  apply (@walk_keeps_surrounding_space greeting host page [0]
           (lit "  Hello world  ") false (mounted None None (Some page))
           greeting_fragments).
  reflexivity.
Defined.

(** The greeting table on the sample page. *)
Lemma two_toggles_restore_document_witness :
  let w := mounted None None (Some page) in
  (mainContent w = Some page
   /\ st_isTranslating w = false /\ st_isTranslated w = false)
  /\ let w2 := @toggle greeting host (@toggle greeting host w) in
     mainContent w2 = Some page
     /\ st_isTranslated w2 = false
     /\ st_isTranslating w2 = false
     /\ st_originalTexts w2 = ∅.
Proof.
  split; [repeat split|].
  apply (@two_toggles_restore_document greeting host
           (mounted None None (Some page)) page
           greeting_inverse greeting_candidates greeting_alone_on_page);
    reflexivity.
Defined.

(** A holder in mode TRANSLATED over the sample page. *)
Lemma reset_reaches_original_once_witness :
  let w :=
    World true false ∅ (Some (lit "rtl")) (Some (lit "ar")) (Some page)
      [] 0 in
  (mainContent w = Some page /\ st_isTranslating w = false)
  /\ st_isTranslated (@reset greeting host w) = false
  /\ @reset greeting host (@reset greeting host w) = @reset greeting host w.
Proof.
  split; [split; reflexivity|].
  apply (@reset_reaches_original_once greeting host
           (World true false ∅ (Some (lit "rtl")) (Some (lit "ar"))
              (Some page) [] 0)
           page); reflexivity.
Defined.

End ExtrasOnSamples.

(** ** Toggles in a row *)

Section Alternation.
Context {T : Translations} {host : Host}.

Lemma toggle_flips (w : world) (root : node) :
  mainContent w = Some root ->
  st_isTranslating w = false ->
  st_isTranslated (toggle w) = negb (st_isTranslated w)
  /\ st_isTranslating (toggle w) = false
  /\ exists root', mainContent (toggle w) = Some root'.
Proof.
  intros Hmain Hflight.
  destruct (toggle_cases w)
    as [[E _] | [(_ & E & _) | (_ & element & w' & _ & ->)]];
    try congruence.
  simpl. repeat split. by eexists.
Qed.

(** X13: on a document with a content root and with no toggle in flight,
    a number of toggles in a row, each of the render that follows the one
    before, leaves the mode it found when the number is even and the
    other mode when it is odd. *)
Theorem toggles_alternate (n : nat) (w : world) (root : node) :
  mainContent w = Some root ->
  st_isTranslating w = false ->
  st_isTranslated (perform_all (repeat Toggle n) w)
  = xorb (st_isTranslated w) (Nat.odd n).
Proof.
  revert w root. induction n as [|n IH]; intros w root Hmain Hflight.
  - simpl. by destruct (st_isTranslated w).
  - change (perform_all (repeat Toggle (S n)) w)
      with (perform_all (repeat Toggle n) (toggle w)).
    destruct (toggle_flips w root Hmain Hflight) as (Hm & Hf & root' & Hr).
    rewrite (IH (toggle w) root' Hr Hf), Hm, Nat.odd_succ.
    rewrite <- Nat.negb_odd. by destruct (st_isTranslated w), (Nat.odd n).
Qed.

End Alternation.

(** Three toggles of a mounted provider over the sample page. *)
Lemma toggles_alternate_witness :
  let w := Samples.mounted None None (Some Samples.page) in
  (mainContent w = Some Samples.page /\ st_isTranslating w = false)
  /\ st_isTranslated
       (@perform_all Samples.greeting Samples.host (repeat Toggle 3) w)
     = xorb (st_isTranslated w) (Nat.odd 3).
Proof.
  split; [split; reflexivity|].
  apply (@toggles_alternate Samples.greeting Samples.host 3
           (Samples.mounted None None (Some Samples.page)) Samples.page);
    reflexivity.
Defined.
